(** * Custom-attribute validators of taiga-back

    A shallow embedding of [taiga/projects/custom_attributes/validators.py]:
    the name/project uniqueness check of the custom-attribute validators, the
    estimation normaliser and the validation of the [attributes_values]
    payload, followed by the properties proved about them. *)

From Stdlib Require Import ZArith List String Ascii Bool Lia.
From Stdlib Require Import DecimalString DecimalZ DecimalPos.
Import ListNotations.

#[local] Set Warnings "-register-all".
#[local] Open Scope string_scope.
#[local] Open Scope Z_scope.

(** ** Python values and exceptions *)

Module Py.

(** The three messages the validators pass to [ValidationError]. *)
Inductive message : Set :=
| AlreadyExists        (* "Already exists one with the same name." *)
| InvalidContent       (* "Invalid content. It must be {key: value,...}" *)
| InvalidCustomFields. (* "It contain invalid custom fields." *)

(** Exceptions that leave the validators.  Only [ValidationError] is a
    validation failure; the others are uncaught Python errors. *)
Inductive exn : Set :=
| ValidationError (m : message)
| ValueError
| TypeError
| KeyError
| IndexError.

Inductive result (A : Type) : Type :=
| Ok (a : A)
| Raise (e : exn).
Arguments Ok {A} a.
Arguments Raise {A} e.

Definition bind {A B : Type} (r : result A) (k : A -> result B) : result B :=
  match r with
  | Ok a => k a
  | Raise e => Raise e
  end.

Notation "x <- r ;; k" := (bind r (fun x => k))
  (at level 61, r at next level, right associativity).

(** Values a decoded JSON document is made of (floats are left out, and
    text is ASCII).  A dict is kept as its items in iteration order; its keys
    are pairwise distinct strings. *)
Inductive pyval : Type :=
| PNone
| PBool (b : bool)
| PInt (z : Z)
| PStr (s : string)
| PList (l : list pyval)
| PDict (d : list (string * pyval)).

(** [bool(v)]: what [if v] and [v or w] test. *)
Definition truthy (v : pyval) : bool :=
  match v with
  | PNone => false
  | PBool b => b
  | PInt z => negb (z =? 0)
  | PStr s => negb (s =? "")%string
  | PList l => match l with [] => false | _ => true end
  | PDict d => match d with [] => false | _ => true end
  end.

Definition is_digit (a : ascii) : bool := (("0" <=? a) && (a <=? "9"))%char.

(** Characters [int] skips around a number in an ASCII string: tab, line
    feed, vertical tab, form feed, carriage return and space. *)
Definition is_space (a : ascii) : bool :=
  let n := nat_of_ascii a in
  ((9 <=? n) && (n <=? 13) || (n =? 32))%nat.

Fixpoint lstrip (s : string) : string :=
  match s with
  | String a r => if is_space a then lstrip r else s
  | EmptyString => EmptyString
  end.

Fixpoint rstrip (s : string) : string :=
  match s with
  | String a r =>
      match rstrip r with
      | EmptyString => if is_space a then EmptyString else String a EmptyString
      | r' => String a r'
      end
  | EmptyString => EmptyString
  end.

Definition strip (s : string) : string := rstrip (lstrip s).

(** Value of a non-empty string of decimal digits, leading zeros allowed. *)
Definition digits_value (s : string) : option Z :=
  option_map Z.of_uint (NilZero.uint_of_string s).

(** The digits of an integer literal: one or more digits, single
    underscores allowed between two digits and dropped. *)
Fixpoint digit_groups (after_digit : bool) (s : string) : option string :=
  match s with
  | String a r =>
      if is_digit a then option_map (String a) (digit_groups true r)
      else if (a =? "_")%char && after_digit then digit_groups false r
      else None
  | EmptyString => if after_digit then Some EmptyString else None
  end.

Definition literal_value (s : string) : option Z :=
  match digit_groups false s with
  | Some ds => digits_value ds
  | None => None
  end.

(** [int(s)] for a string of ASCII characters: surrounding white space, an
    optional sign, then the digits.  [None] stands for the [ValueError] of
    [int]. *)
Definition int_of_str (s : string) : option Z :=
  match strip s with
  | String "-" r => option_map Z.opp (literal_value r)
  | String "+" r => literal_value r
  | t => literal_value t
  end.

(** [int(v)] *)
Definition int (v : pyval) : result Z :=
  match v with
  | PInt z => Ok z
  | PBool b => Ok (if b then 1 else 0)
  | PStr s => match int_of_str s with Some z => Ok z | None => Raise ValueError end
  | PNone | PList _ | PDict _ => Raise TypeError
  end.

(** [str(z)] *)
Definition str (z : Z) : string := NilZero.string_of_int (Z.to_int z).

(** [s[:-1]] *)
Fixpoint drop_last (s : string) : string :=
  match s with
  | String a EmptyString => EmptyString
  | String a r => String a (drop_last r)
  | EmptyString => EmptyString
  end.

(** [len(v)] of the containers a [for] loop can walk. *)
Definition len (v : pyval) : nat :=
  match v with
  | PStr s => String.length s
  | PList l => List.length l
  | PDict d => List.length d
  | _ => O
  end.

(** The item a [for] loop over [v] yields at step [i]: the [i]-th key of a
    dict, the [i]-th element of a list as it is at that moment, the [i]-th
    character of a string. *)
Definition iter_nth (v : pyval) (i : nat) : option pyval :=
  match v with
  | PDict d => option_map (fun kv => PStr (fst kv)) (nth_error d i)
  | PList l => nth_error l i
  | PStr s => option_map (fun a => PStr (String a EmptyString)) (String.get i s)
  | _ => None
  end.

Fixpoint assoc_get (d : list (string * pyval)) (k : string) : option pyval :=
  match d with
  | (k', v) :: d' => if (k' =? k)%string then Some v else assoc_get d' k
  | [] => None
  end.

(** Assignment to a key the dict already has keeps the key in its place. *)
Fixpoint assoc_set (d : list (string * pyval)) (k : string) (v : pyval)
  : list (string * pyval) :=
  match d with
  | (k', v') :: d' =>
      if (k' =? k)%string then (k', v) :: d' else (k', v') :: assoc_set d' k v
  | [] => [(k, v)]
  end.

(** Position a list index denotes: negative indices count from the end. *)
Definition list_index (n : nat) (z : Z) : option nat :=
  let z' := if z <? 0 then z + Z.of_nat n else z in
  if (0 <=? z') && (z' <? Z.of_nat n) then Some (Z.to_nat z') else None.

Fixpoint list_set (l : list pyval) (i : nat) (v : pyval) : list pyval :=
  match l, i with
  | _ :: l', O => v :: l'
  | x :: l', S i' => x :: list_set l' i' v
  | [], _ => []
  end.

Definition as_index (key : pyval) : option Z :=
  match key with
  | PInt z => Some z
  | PBool b => Some (if b then 1 else 0)
  | _ => None
  end.

(** [c[key]] *)
Definition getitem (c key : pyval) : result pyval :=
  match c with
  | PDict d =>
      match key with
      | PStr k => match assoc_get d k with Some v => Ok v | None => Raise KeyError end
      | PList _ | PDict _ => Raise TypeError
      | _ => Raise KeyError
      end
  | PList l =>
      match as_index key with
      | Some z =>
          match list_index (List.length l) z with
          | Some i => match nth_error l i with Some v => Ok v | None => Raise IndexError end
          | None => Raise IndexError
          end
      | None => Raise TypeError
      end
  | _ => Raise TypeError
  end.

(** [c[key] = v], returning the container after the assignment. *)
Definition setitem (c key v : pyval) : result pyval :=
  match c with
  | PDict d =>
      match key with
      | PStr k => Ok (PDict (assoc_set d k v))
      | _ => Raise TypeError
      end
  | PList l =>
      match as_index key with
      | Some z =>
          match list_index (List.length l) z with
          | Some i => Ok (PList (list_set l i v))
          | None => Raise IndexError
          end
      | None => Raise TypeError
      end
  | _ => Raise TypeError
  end.

End Py.
Import Py.

(** ** The regular expression of [validate_estimation] *)

Module Re.

(** [[0-9]*], greedy: the longest run of digits and what follows it. *)
Fixpoint span_digits (s : string) : string * string :=
  match s with
  | String a r =>
      if is_digit a
      then let (ds, rest) := span_digits r in (String a ds, rest)
      else (EmptyString, s)
  | EmptyString => (EmptyString, EmptyString)
  end.

(** One pass through a group [([0-9]+c)]: the text it captures and the rest
    of the subject, or [None] when the group does not match here.  Giving
    digits back cannot help, since the character after a shorter run is a
    digit and not [c]. *)
Definition group_once (c : ascii) (s : string) : option (string * string) :=
  match span_digits s with
  | (String a ds, String x rest) =>
      if (x =? c)%char then Some (String a ds ++ String c EmptyString, rest) else None
  | _ => None
  end.

(** [([0-9]+c)*], greedy: the group is repeated as long as it matches and
    keeps the text of its last pass ([captured] before the first one).  Every
    pass consumes at least two characters, so [fuel] as large as the length
    of the subject is never exhausted. *)
Fixpoint group_star (fuel : nat) (c : ascii) (s captured : string) : string * string :=
  match fuel with
  | O => (captured, s)
  | S fuel' =>
      match group_once c s with
      | Some (tok, rest) => group_star fuel' c rest tok
      | None => (captured, s)
      end
  end.

(** [re.findall('([0-9]+w)*([0-9]+d)*([0-9]+h)*', value)[0]]: the groups of
    the match at position 0.  The pattern matches the empty string, so there
    always is a match there and the first, greediest attempt succeeds; a group
    that took no pass is reported as [''].  *)
Definition findall_first (value : string) : string * string * string :=
  let n := String.length value in
  let (w, s1) := group_star n "w" value EmptyString in
  let (d, s2) := group_star n "d" s1 EmptyString in
  let (h, _) := group_star n "h" s2 EmptyString in
  (w, d, h).

End Re.

(** ** The repository: custom-attribute models *)

Inductive entity_kind : Set := Epic | UserStory | Task | Issue.

(** A row of one of the four [...CustomAttribute] models. *)
Record CustomAttribute : Set := {
  ca_id : Z;
  ca_project : Z;
  ca_name : string;
  ca_type : string
}.

(** [models.<Kind>CustomAttribute.objects]: the rows of each model. *)
Definition database : Set := entity_kind -> list CustomAttribute.

Definition eqb_opt_Z (a b : option Z) : bool :=
  match a, b with
  | Some x, Some y => x =? y
  | None, None => true
  | _, _ => false
  end.

Definition eqb_opt_string (a b : option string) : bool :=
  match a, b with
  | Some x, Some y => (x =? y)%string
  | None, None => true
  | _, _ => false
  end.

(** The invariant the name check protects: within one model, two rows with
    the same project and the same name are the same row. *)
Definition same_project_and_name (r r' : CustomAttribute) : bool :=
  (ca_project r =? ca_project r') && (ca_name r =? ca_name r')%string.

Fixpoint unique_names (table : list CustomAttribute) : bool :=
  match table with
  | [] => true
  | r :: rest =>
      forallb (fun r' => negb (same_project_and_name r r') || (ca_id r =? ca_id r')) rest
      && unique_names rest
  end.

(** Primary keys: no two rows of a model share an id. *)
Fixpoint unique_ids (table : list CustomAttribute) : bool :=
  match table with
  | [] => true
  | r :: rest => negb (existsb (fun r' => ca_id r =? ca_id r') rest) && unique_ids rest
  end.

(** ** BaseCustomAttributeValidator *)

Module BaseCustomAttributeValidator.

(** The entries of [attrs] the check reads, as [attrs.get(_, None)] returns
    them.  [project] is a model instance, which is always true as a
    condition; it is kept as its primary key. *)
Record attrs_t : Set := {
  attrs_id : option Z;
  attrs_name : option string;
  attrs_project : option Z
}.

(** [models.<Kind>CustomAttribute] as [self.Meta.model]. *)
Definition Meta_model (db : database) (kind : entity_kind) : list CustomAttribute :=
  db kind.

(** [a or b] for an optional integer, an optional string and an optional
    model instance. *)
Definition or_int (a : option Z) (b : Z) : option Z :=
  match a with
  | Some z => if z =? 0 then Some b else Some z
  | None => Some b
  end.

Definition or_str (a : option string) (b : string) : option string :=
  match a with
  | Some s => if (s =? "")%string then Some b else Some s
  | None => Some b
  end.

Definition or_obj (a : option Z) (b : Z) : option Z :=
  match a with
  | Some p => Some p
  | None => Some b
  end.

(** Lines 47-54: [data_id], [data_name] and [data_project]. *)
Definition resolve (self_object : option CustomAttribute) (attrs : attrs_t)
  : option Z * option string * option Z :=
  let data_id := attrs_id attrs in
  let data_name := attrs_name attrs in
  let data_project := attrs_project attrs in
  match self_object with
  | Some o =>
      (or_int data_id (ca_id o), or_str data_name (ca_name o),
       or_obj data_project (ca_project o))
  | None => (data_id, data_name, data_project)
  end.

(** [model.objects.filter(project=..., name=...).exclude(id=...)]: the
    columns are not null, so [None] selects no row with [filter] and
    removes no row with [exclude]. *)
Definition collides (data_id : option Z) (data_name : option string)
  (data_project : option Z) (r : CustomAttribute) : bool :=
  eqb_opt_Z (Some (ca_project r)) data_project
  && eqb_opt_string (Some (ca_name r)) data_name
  && negb (eqb_opt_Z (Some (ca_id r)) data_id).

Definition _validate_integrity_between_project_and_name (db : database)
  (kind : entity_kind) (self_object : option CustomAttribute) (attrs : attrs_t)
  : result attrs_t :=
  let '(data_id, data_name, data_project) := resolve self_object attrs in
  let model := Meta_model db kind in
  let qs := filter (collides data_id data_name data_project) model in
  match qs with
  | _ :: _ => Raise (ValidationError AlreadyExists)
  | [] => Ok attrs
  end.

Definition validate_name := _validate_integrity_between_project_and_name.
Definition validate_project := _validate_integrity_between_project_and_name.

End BaseCustomAttributeValidator.

(** ** BaseCustomAttributesValuesValidator *)

Module BaseCustomAttributesValuesValidator.

(** The container (epic, user story, task or issue) of a values object; only
    its [project_id] is read. *)
Record Container : Set := { project_id : Z }.

(** [self.object], a [...CustomAttributesValues] row with its container. *)
Record CustomAttributesValues : Type := {
  attributes_values : pyval;
  container : Container
}.

(** The entries of [attrs] that are read: [attrs['attributes_values']]
    ([None] when the key is missing) and [attrs.get(self._container_field,
    None)]. *)
Record attrs_t : Type := {
  attrs_attributes_values : option pyval;
  attrs_container : option Container
}.

Definition _container_field (kind : entity_kind) : string :=
  match kind with
  | Epic => "epic"
  | UserStory => "user_story"
  | Task => "task"
  | Issue => "issue"
  end.

Definition _custom_attribute_model (db : database) (kind : entity_kind)
  : list CustomAttribute := db kind.

(** Queries sent to the repository, oldest first. *)
Inductive query : Set :=
| QAll (model : entity_kind)
| QCount (model : entity_kind) (project : option Z) (ids : list string).

(** The two [while] loops: [limit] is taken from [low] and one added to
    [high] as long as [low >= limit]. *)
Fixpoint carry (fuel : nat) (limit low high : Z) : Z * Z :=
  match fuel with
  | O => (low, high)
  | S fuel' =>
      if limit <=? low then carry fuel' limit (low - limit) (high + 1)
      else (low, high)
  end.

Definition suffixed (n : Z) (unit : string) : string :=
  if 0 <? n then str n ++ unit else "".

Definition validate_estimation (value : pyval) : result string :=
  match value with
  | PStr s =>
      let '(w, d, h) := Re.findall_first s in
      t0 <- int (PStr ("0" ++ drop_last w)) ;;
      t1 <- int (PStr ("0" ++ drop_last d)) ;;
      t2 <- int (PStr ("0" ++ drop_last h)) ;;
      let (t2, t1) := carry (Z.to_nat t2) 8 t2 t1 in
      let (t1, t0) := carry (Z.to_nat t1) 5 t1 t0 in
      Ok (suffixed t0 "w" ++ suffixed t1 "d" ++ suffixed t2 "h")
  | _ => Raise TypeError
  end.

(** Line 120: ids of the user-story attributes of type ["est"]. *)
Definition estimate_field_ids (db : database) : list Z :=
  map ca_id (filter (fun field => (ca_type field =? "est")%string) (db UserStory)).

Definition mem (z : Z) (l : list Z) : bool := existsb (Z.eqb z) l.

(** Lines 122-124, from step [i] on: the loop body runs on the container as
    the steps before left it, and an exception leaves it as it is then. *)
Fixpoint estimation_loop (ids : list Z) (steps i : nat) (attributes_dict : pyval)
  : pyval * result unit :=
  match steps with
  | O => (attributes_dict, Ok tt)
  | S steps' =>
      match iter_nth attributes_dict i with
      | None => (attributes_dict, Ok tt)
      | Some key =>
          match int key with
          | Raise e => (attributes_dict, Raise e)
          | Ok k =>
              if mem k ids then
                match (v <- getitem attributes_dict key ;;
                       e <- validate_estimation v ;;
                       setitem attributes_dict key (PStr e)) with
                | Raise e => (attributes_dict, Raise e)
                | Ok attributes_dict' =>
                    estimation_loop ids steps' (S i) attributes_dict'
                end
              else estimation_loop ids steps' (S i) attributes_dict
          end
      end
  end.

(** [for key in attributes_dict: ...]: [None], booleans and integers cannot
    be iterated. *)
Definition normalize_estimations (ids : list Z) (attributes_dict : pyval)
  : pyval * result unit :=
  match attributes_dict with
  | PDict _ | PList _ | PStr _ =>
      estimation_loop ids (len attributes_dict) O attributes_dict
  | _ => (attributes_dict, Raise TypeError)
  end.

(** [int] as the [id__in] lookup applies it to each value given. *)
Fixpoint prep_ids (values_ids : list string) : result (list Z) :=
  match values_ids with
  | [] => Ok []
  | k :: ks =>
      z <- int (PStr k) ;;
      zs <- prep_ids ks ;;
      Ok (z :: zs)
  end.

(** Rows selected by [filter(project=project_id, id__in=ids)]. *)
Definition in_project (project_id : option Z) (ids : list Z) (r : CustomAttribute)
  : bool :=
  eqb_opt_Z (Some (ca_project r)) project_id && mem (ca_id r) ids.

(** Lines 133-148, for the value [data_values] that passed the type test. *)
Definition check_keys (db : database) (kind : entity_kind)
  (self_object : option CustomAttributesValues) (attrs : attrs_t)
  (data_values : list (string * pyval)) : list query * result unit :=
  let data_container := attrs_container attrs in
  let project_id :=
    match data_container with
    | Some c => Some (project_id c)
    | None =>
        match self_object with
        | Some o => Some (project_id (container o))
        | None => None
        end
    end in
  let values_ids := map fst data_values in
  match prep_ids values_ids with
  | Raise e => ([], Raise e)
  | Ok ids =>
      let qs := filter (in_project project_id ids) (_custom_attribute_model db kind) in
      ([QCount kind project_id values_ids],
       if (List.length qs =? List.length values_ids)%nat then Ok tt
       else Raise (ValidationError InvalidCustomFields))
  end.

(** Lines 125-148, with [data_values] as [attrs.get] returned it. *)
Definition check_values (db : database) (kind : entity_kind)
  (self_object : option CustomAttributesValues) (attrs : attrs_t)
  (data_values : pyval) : list query * result unit :=
  let data_values :=
    match self_object with
    | Some o => if truthy data_values then data_values else attributes_values o
    | None => data_values
    end in
  match data_values with
  | PDict d => check_keys db kind self_object attrs d
  | _ => ([], Raise (ValidationError InvalidContent))
  end.

(** The queries issued and the outcome: [attrs] as returned, its
    [attributes_values] being the dict the loop has updated in place. *)
Definition validate_attributes_values (db : database) (kind : entity_kind)
  (self_object : option CustomAttributesValues) (attrs : attrs_t)
  : list query * result attrs_t :=
  let ids := estimate_field_ids db in
  match attrs_attributes_values attrs with
  | None => ([QAll UserStory], Raise KeyError)
  | Some attributes_dict =>
      match normalize_estimations ids attributes_dict with
      | (_, Raise e) => ([QAll UserStory], Raise e)
      | (attributes_dict', Ok _) =>
          let attrs' := {| attrs_attributes_values := Some attributes_dict';
                           attrs_container := attrs_container attrs |} in
          let (log, r) := check_values db kind self_object attrs' attributes_dict' in
          (QAll UserStory :: log, _ <- r ;; Ok attrs')
      end
  end.

End BaseCustomAttributesValuesValidator.

(** ** The duration grammar of the specification *)

Module Grammar.

Fixpoint all_digits (s : string) : bool :=
  match s with
  | String a r => is_digit a && all_digits r
  | EmptyString => true
  end.

(** The digits of an integer component: at least one, nothing else. *)
Definition is_int (ds : string) : bool :=
  negb (ds =? "")%string && all_digits ds.

(** An optional component [<int><unit>], given by its digits when present. *)
Definition well_formed (o : option string) : bool :=
  match o with
  | Some ds => is_int ds
  | None => true
  end.

Definition component (o : option string) (unit : ascii) : string :=
  match o with
  | Some ds => ds ++ String unit EmptyString
  | None => EmptyString
  end.

(** Optional [<int>w], optional [<int>d], optional [<int>h], in that order. *)
Definition duration (ow od oh : option string) : string :=
  component ow "w" ++ component od "d" ++ component oh "h".

(** The number a digit stands for, and the number a string of digits
    stands for in base ten, read from the left after [acc]. *)
Definition digit (a : ascii) : Z := Z.of_nat (nat_of_ascii a) - 48.

Fixpoint decimal (acc : Z) (ds : string) : Z :=
  match ds with
  | String a r => decimal (10 * acc + digit a) r
  | EmptyString => acc
  end.

(** The integer a component stands for, a missing one counting as 0. *)
Definition value (o : option string) : Z :=
  match o with
  | Some ds => decimal 0 ds
  | None => 0
  end.

(** Removes a leading [<int><unit>] when there is one. *)
Definition skip_component (unit : ascii) (s : string) : string :=
  match Re.span_digits s with
  | (String _ _, String x rest) => if (x =? unit)%char then rest else s
  | _ => s
  end.

(** Membership in the grammar: nothing is left once an optional week, day
    and hour component have been taken off, in that order. *)
Definition in_grammar (s : string) : bool :=
  (skip_component "h" (skip_component "d" (skip_component "w" s)) =? "")%string.

(** Hours carried into days (8 to a day), then days into weeks (5 to a
    week). *)
Definition carried (w d h : Z) : Z * Z * Z :=
  let d1 := d + h / 8 in
  (w + d1 / 5, d1 mod 5, h mod 8).

(** Non-zero components in week, day, hour order, nothing in between. *)
Definition render (t : Z * Z * Z) : string :=
  let '(w, d, h) := t in
  (if 0 <? w then str w ++ "w" else "")
  ++ (if 0 <? d then str d ++ "d" else "")
  ++ (if 0 <? h then str h ++ "h" else "").

(** The component a number is rendered as: none when it is zero. *)
Definition shown (n : Z) : option string := if 0 <? n then Some (str n) else None.

End Grammar.
Import Grammar.

(** ** The effective project of a values payload *)

(** The project the keys are looked up in: the one of the container given in
    [attrs], else the one of the container of the existing payload. *)
Definition effective_project
  (self_object : option BaseCustomAttributesValuesValidator.CustomAttributesValues)
  (attrs : BaseCustomAttributesValuesValidator.attrs_t) : option Z :=
  let project_of := BaseCustomAttributesValuesValidator.project_id in
  match BaseCustomAttributesValuesValidator.attrs_container attrs with
  | Some c => Some (project_of c)
  | None =>
      option_map
        (fun o => project_of (BaseCustomAttributesValuesValidator.container o))
        self_object
  end.

(** ** Sample data *)

Module Samples.

Definition severity : CustomAttribute :=
  {| ca_id := 3; ca_project := 1; ca_name := "severity"; ca_type := "text" |}.

Definition browser : CustomAttribute :=
  {| ca_id := 4; ca_project := 2; ca_name := "browser"; ca_type := "text" |}.

(** Two issue attributes, in projects 1 and 2. *)
Definition issues_db : database :=
  fun kind => match kind with Issue => [severity; browser] | _ => [] end.

Definition effort : CustomAttribute :=
  {| ca_id := 1; ca_project := 1; ca_name := "effort"; ca_type := "est" |}.

(** One estimation attribute, of tasks only. *)
Definition tasks_db : database :=
  fun kind => match kind with Task => [effort] | _ => [] end.

(** The same attribute, of user stories only. *)
Definition stories_db : database :=
  fun kind => match kind with UserStory => [effort] | _ => [] end.

(** A text attribute of tasks whose id is the id of an estimation attribute
    of user stories. *)
Definition notes : CustomAttribute :=
  {| ca_id := 1; ca_project := 1; ca_name := "notes"; ca_type := "text" |}.

Definition mixed_db : database :=
  fun kind =>
    match kind with
    | Task => [notes]
    | UserStory => [effort]
    | _ => []
    end.

End Samples.

(** ** Strings with repeated components *)

Module Repeated.

(** [<int><unit>] for each of the integers given, one after the other. *)
Fixpoint units (ints : list string) (unit : ascii) : string :=
  match ints with
  | [] => EmptyString
  | ds :: more => ds ++ String unit (units more unit)
  end.

(** The last of the integers given, when there is one. *)
Definition final (ints : list string) : option string :=
  match ints with
  | [] => None
  | _ => Some (last ints EmptyString)
  end.

(** Working hours of a duration: 8 to a day, 40 to a week. *)
Definition total_hours (w d h : Z) : Z := 40 * w + 8 * d + h.

(** [rest] is empty or starts with a character that is not a digit. *)
Definition no_digit_first (rest : string) : bool :=
  match rest with
  | String a _ => negb (is_digit a)
  | EmptyString => true
  end.

End Repeated.

(** ** The rows of a model once a validated change is saved *)

Module Saving.

(** A new row is added to the rows of the model. *)
Definition created (table : list CustomAttribute) (row : CustomAttribute)
  : list CustomAttribute := table ++ [row].

(** The row with the id of [row] is replaced by [row]. *)
Definition updated (table : list CustomAttribute) (row : CustomAttribute)
  : list CustomAttribute :=
  map (fun r => if ca_id r =? ca_id row then row else r) table.

(** The existing record with the change applied: the name and the project
    that [attrs] hold replace its own, whatever they are. *)
Definition changed (o : CustomAttribute) (attrs : BaseCustomAttributeValidator.attrs_t)
  : CustomAttribute :=
  {| ca_id := ca_id o;
     ca_project := match BaseCustomAttributeValidator.attrs_project attrs with
                   | Some p => p
                   | None => ca_project o
                   end;
     ca_name := match BaseCustomAttributeValidator.attrs_name attrs with
                | Some n => n
                | None => ca_name o
                end;
     ca_type := ca_type o |}.

End Saving.

(** ** The estimation loop, entry by entry *)

Module Entries.

(** What the loop body does to one entry of a dict: the key is read as an
    integer and, when it is the id of an estimation attribute, the value is
    replaced by its normal form. *)
Definition normalize_item (ids : list Z) (kv : string * pyval)
  : result (string * pyval) :=
  k <- int (PStr (fst kv)) ;;
  if BaseCustomAttributesValuesValidator.mem k ids
  then e <- BaseCustomAttributesValuesValidator.validate_estimation (snd kv) ;;
       Ok (fst kv, PStr e)
  else Ok kv.

(** The entries normalised from the first to the last, up to the first
    exception. *)
Fixpoint normalize_items (ids : list Z) (d : list (string * pyval))
  : result (list (string * pyval)) :=
  match d with
  | [] => Ok []
  | kv :: more =>
      kv' <- normalize_item ids kv ;;
      more' <- normalize_items ids more ;;
      Ok (kv' :: more')
  end.

(** Pairwise distinct keys, as those of a dict are. *)
Fixpoint distinct (keys : list string) : bool :=
  match keys with
  | [] => true
  | k :: more => negb (existsb (String.eqb k) more) && distinct more
  end.

(** The value the type test and the referential check are applied to: the
    one of [attrs] unless it is false and there is an existing payload, whose
    stored mapping is taken then. *)
Definition checked_values
  (self_object : option BaseCustomAttributesValuesValidator.CustomAttributesValues)
  (data_values : pyval) : pyval :=
  match self_object with
  | Some o =>
      if truthy data_values then data_values
      else BaseCustomAttributesValuesValidator.attributes_values o
  | None => data_values
  end.

(** [type(v) is dict] *)
Definition is_dict (v : pyval) : bool :=
  match v with
  | PDict _ => true
  | _ => false
  end.

(** The type of a value, as a number. *)
Definition type_of (v : pyval) : nat :=
  match v with
  | PNone => 0
  | PBool _ => 1
  | PInt _ => 2
  | PStr _ => 3
  | PList _ => 4
  | PDict _ => 5
  end.

End Entries.

(** * Properties *)

Import BaseCustomAttributesValuesValidator.

(** ** Digits, [int] and [str] *)

Lemma is_digit_char (a : ascii) :
  is_digit a = true ->
  is_space a = false /\ a <> "-"%char /\ a <> "+"%char
  /\ forall u, exists u', uint_of_char a (Some u) = Some u'.
Proof.
  destruct a as [[] [] [] [] [] [] [] []]; vm_compute; intros H;
    try discriminate H; repeat split; try discriminate; eauto.
Qed.

Lemma all_digits_parse (s : string) :
  all_digits s = true -> exists u, NilEmpty.uint_of_string s = Some u.
Proof.
  induction s as [|a s IH]; simpl; intros H.
  - eauto.
  - apply andb_true_iff in H as [Ha Hs].
    destruct (IH Hs) as [u ->].
    apply is_digit_char in Ha as (_ & _ & _ & Hu). apply Hu.
Qed.

Lemma lstrip_digit (a : ascii) (s : string) :
  is_digit a = true -> lstrip (String a s) = String a s.
Proof.
  intros H. apply is_digit_char in H as (H & _). simpl. now rewrite H.
Qed.

Lemma rstrip_digits (s : string) : all_digits s = true -> rstrip s = s.
Proof.
  induction s as [|a s IH]; simpl; intros H; [reflexivity|].
  apply andb_true_iff in H as [Ha Hs]. rewrite (IH Hs).
  apply is_digit_char in Ha as (-> & _). now destruct s.
Qed.

Lemma digit_groups_digits (s : string) :
  all_digits s = true -> digit_groups true s = Some s.
Proof.
  induction s as [|a s IH]; simpl; intros H; [reflexivity|].
  apply andb_true_iff in H as [-> Hs]. now rewrite (IH Hs).
Qed.

(** [int] of ['0'] followed by digits never fails. *)
Lemma int_zero_digits (ds : string) :
  all_digits ds = true ->
  exists u, NilEmpty.uint_of_string ds = Some u
            /\ int (PStr ("0" ++ ds)) = Ok (Z.of_uint u).
Proof.
  intros H. destruct (all_digits_parse ds H) as [u Hu]. exists u. split; [exact Hu|].
  cbn [int]. unfold int_of_str, strip.
  change ("0" ++ ds) with (String "0" ds).
  rewrite lstrip_digit by reflexivity.
  rewrite rstrip_digits by (simpl; exact H).
  unfold literal_value. cbn [digit_groups]. change (is_digit "0") with true.
  cbv iota. rewrite (digit_groups_digits ds H). cbn [option_map].
  unfold digits_value, NilZero.uint_of_string. cbn [NilEmpty.uint_of_string].
  rewrite Hu. reflexivity.
Qed.

(** [int] skips the six ASCII white-space characters and no other control
    character: a key with a file separator in front is not a number. *)
Lemma int_white_space :
  int_of_str (String (ascii_of_nat 9) (String "3" (String " " EmptyString))) = Some 3
  /\ int_of_str (String (ascii_of_nat 28) (String "3" EmptyString)) = None
  /\ int_of_str (String "3" (String (ascii_of_nat 31) EmptyString)) = None.
Proof. repeat split. Qed.

Lemma of_uint_nonneg (u : Decimal.uint) : 0 <= Z.of_uint u.
Proof. unfold Z.of_uint. apply N2Z.is_nonneg. Qed.

Lemma all_digits_string_of_uint (u : Decimal.uint) :
  all_digits (NilEmpty.string_of_uint u) = true.
Proof. induction u; simpl; auto. Qed.

(** The library's reading of digits is the base-ten value. *)
Ltac digit_value :=
  match goal with
  | |- context [digit ?a] =>
      let v := eval vm_compute in (digit a) in change (digit a) with v
  end.


Lemma of_uint_acc_decimal (l : Decimal.uint) (p : positive) :
  Z.pos (Pos.of_uint_acc l p) = decimal (Z.pos p) (NilEmpty.string_of_uint l).
Proof.
  revert p.
  induction l; intros p; cbn [Pos.of_uint_acc NilEmpty.string_of_uint decimal];
    [reflexivity | rewrite IHl; f_equal; digit_value; lia ..].
Qed.

Lemma of_uint_decimal (u : Decimal.uint) :
  Z.of_uint u = decimal 0 (NilEmpty.string_of_uint u).
Proof.
  unfold Z.of_uint.
  induction u; cbn [Pos.of_uint NilEmpty.string_of_uint decimal Z.of_N];
    [reflexivity | digit_value; exact IHu
     | rewrite of_uint_acc_decimal; f_equal; digit_value; lia ..].
Qed.

Lemma digits_value_decimal (ds : string) (z : Z) :
  digits_value ds = Some z -> decimal 0 ds = z.
Proof.
  unfold digits_value. destruct (NilZero.uint_of_string ds) as [u|] eqn:E; [|discriminate].
  intros [= <-]. apply NilZero.sus in E. rewrite of_uint_decimal.
  unfold NilZero.string_of_uint in E. destruct u; try (now rewrite E).
  now subst ds.
Qed.

(** [str] of a positive integer: digits that read back as that integer. *)
Lemma str_positive (n : Z) :
  0 < n ->
  is_int (str n) = true /\ digits_value (str n) = Some n.
Proof.
  destruct n as [|p|p]; try lia. intros _.
  unfold str. cbn [Z.to_int NilZero.string_of_int].
  assert (Hnil : Pos.to_uint p <> Decimal.Nil) by apply DecimalPos.Unsigned.to_uint_nonnil.
  assert (Hs : NilZero.string_of_uint (Pos.to_uint p)
               = NilEmpty.string_of_uint (Pos.to_uint p)).
  { unfold NilZero.string_of_uint. destruct (Pos.to_uint p); congruence. }
  split.
  - unfold is_int. rewrite Hs, all_digits_string_of_uint, andb_true_r.
    destruct (Pos.to_uint p); try congruence; reflexivity.
  - unfold digits_value. rewrite NilZero.usu by exact Hnil.
    cbn [option_map]. unfold Z.of_uint.
    now rewrite DecimalPos.Unsigned.of_to.
Qed.

(** ** The groups of the regular expression *)

Lemma append_assoc (a b c : string) : (a ++ b) ++ c = a ++ (b ++ c).
Proof. induction a as [|x a IH]; simpl; [reflexivity | now rewrite IH]. Qed.

Lemma length_append (a b : string) :
  String.length (a ++ b) = (String.length a + String.length b)%nat.
Proof. induction a as [|x a IH]; simpl; [reflexivity | now rewrite IH]. Qed.

Lemma drop_last_unit (ds : string) (c : ascii) :
  drop_last (ds ++ String c EmptyString) = ds.
Proof.
  induction ds as [|a ds IH]; [reflexivity|].
  simpl. rewrite IH. now destruct ds.
Qed.

Lemma span_digits_app (ds rest : string) :
  all_digits ds = true ->
  match rest with String x _ => is_digit x = false | EmptyString => True end ->
  Re.span_digits (ds ++ rest) = (ds, rest).
Proof.
  intros Hds Hrest. induction ds as [|a ds IH]; simpl.
  - destruct rest as [|x r]; [reflexivity|]. simpl. now rewrite Hrest.
  - simpl in Hds. apply andb_true_iff in Hds as [-> Hds]. now rewrite (IH Hds).
Qed.

Lemma span_digits_split (s : string) :
  all_digits (fst (Re.span_digits s)) = true
  /\ s = fst (Re.span_digits s) ++ snd (Re.span_digits s).
Proof.
  induction s as [|a s [IH1 IH2]]; simpl; [auto|].
  destruct (is_digit a) eqn:Ha; [|auto].
  destruct (Re.span_digits s) as [ds rest]. simpl in *.
  rewrite Ha, IH1. split; [reflexivity | now f_equal].
Qed.

Lemma is_int_cons (ds : string) :
  is_int ds = true -> exists a r, ds = String a r /\ all_digits ds = true.
Proof.
  unfold is_int. destruct ds as [|a r]; [discriminate|].
  intros H. apply andb_true_iff in H as [_ H]. eauto.
Qed.

(** A component with unit [c] in front: the group takes it. *)
Lemma group_once_token (c : ascii) (ds rest : string) :
  is_int ds = true -> is_digit c = false ->
  Re.group_once c (ds ++ String c rest) = Some (ds ++ String c EmptyString, rest).
Proof.
  intros Hds Hc. destruct (is_int_cons ds Hds) as (a & r & -> & Hall).
  unfold Re.group_once. rewrite span_digits_app by assumption.
  now rewrite Ascii.eqb_refl.
Qed.

(** Digits followed by another character: the group does not match. *)
Lemma group_once_other (c x : ascii) (ds rest : string) :
  all_digits ds = true -> is_digit x = false -> x <> c ->
  Re.group_once c (ds ++ String x rest) = None.
Proof.
  intros Hds Hx Hxc. unfold Re.group_once.
  rewrite span_digits_app by assumption.
  destruct ds; [reflexivity|].
  apply Ascii.eqb_neq in Hxc. now rewrite Hxc.
Qed.

(** What a group captures is an integer followed by its unit, taken from
    the front of the subject. *)
Lemma group_once_shape (c : ascii) (s tok rest : string) :
  Re.group_once c s = Some (tok, rest) ->
  exists ds, is_int ds = true /\ tok = ds ++ String c EmptyString /\ s = tok ++ rest.
Proof.
  unfold Re.group_once. destruct (span_digits_split s) as [Hall Hs].
  destruct (Re.span_digits s) as [[|a ds] [|x r]]; try discriminate.
  destruct (Ascii.eqb_spec x c) as [->|]; [|discriminate].
  intros [= <- <-]. simpl in Hall, Hs. exists (String a ds). repeat split.
  - unfold is_int. simpl. exact Hall.
  - rewrite Hs. simpl. f_equal. now rewrite append_assoc.
Qed.

Lemma group_star_stop (fuel : nat) (c : ascii) (s captured : string) :
  Re.group_once c s = None -> Re.group_star fuel c s captured = (captured, s).
Proof. intros H. destruct fuel; simpl; [reflexivity | now rewrite H]. Qed.

(** An optional component followed by something the group does not match. *)
Lemma group_star_component (fuel : nat) (c : ascii) (o : option string) (tail : string) :
  well_formed o = true -> is_digit c = false ->
  Re.group_once c tail = None ->
  (String.length (component o c) <= fuel)%nat ->
  Re.group_star fuel c (component o c ++ tail) EmptyString = (component o c, tail).
Proof.
  intros Ho Hc Htail Hfuel. destruct o as [ds|]; simpl in *.
  - destruct fuel as [|fuel].
    + destruct ds; simpl in Hfuel; lia.
    + simpl. rewrite append_assoc. simpl.
      rewrite group_once_token by assumption.
      now apply group_star_stop.
  - now apply group_star_stop.
Qed.

(** Whatever the subject, a group holds nothing or an integer and the unit. *)
Lemma group_star_shape (fuel : nat) (c : ascii) (s captured : string) :
  (captured = EmptyString
   \/ exists ds, is_int ds = true /\ captured = ds ++ String c EmptyString) ->
  let tok := fst (Re.group_star fuel c s captured) in
  tok = EmptyString \/ exists ds, is_int ds = true /\ tok = ds ++ String c EmptyString.
Proof.
  revert s captured. induction fuel as [|fuel IH]; intros s captured H; simpl; [exact H|].
  destruct (Re.group_once c s) as [[tok rest]|] eqn:E; [|exact H].
  apply IH. right. apply group_once_shape in E as (ds & Hds & -> & _). eauto.
Qed.

(** The repetition stops because the group no longer matches, never because
    the fuel is used up. *)
Lemma group_star_complete (fuel : nat) (c : ascii) (s captured : string) :
  (String.length s <= fuel)%nat ->
  let rest := snd (Re.group_star fuel c s captured) in
  Re.group_once c rest = None /\ (String.length rest <= String.length s)%nat.
Proof.
  revert s captured. induction fuel as [|fuel IH]; intros s captured Hlen; simpl.
  - destruct s; simpl in Hlen; [split; [reflexivity | lia] | lia].
  - destruct (Re.group_once c s) as [[tok rest]|] eqn:E;
      [|simpl; split; [exact E | lia]].
    destruct (group_once_shape _ _ _ _ E) as (ds & Hds & -> & ->).
    rewrite !length_append in *. simpl in Hlen.
    destruct (IH rest (ds ++ String c EmptyString)) as [H1 H2]; [lia|].
    split; [exact H1 | lia].
Qed.

(** In [findall_first] each of the three repetitions runs until its group
    no longer matches. *)
Lemma findall_first_greedy (value : string) :
  let n := String.length value in
  let s1 := snd (Re.group_star n "w" value "") in
  let s2 := snd (Re.group_star n "d" s1 "") in
  let s3 := snd (Re.group_star n "h" s2 "") in
  Re.group_once "w" s1 = None /\ Re.group_once "d" s2 = None
  /\ Re.group_once "h" s3 = None.
Proof.
  intros n s1 s2 s3.
  destruct (group_star_complete n "w" value "" (Nat.le_refl _)) as [H1 L1].
  fold s1 in H1, L1.
  destruct (group_star_complete n "d" s1 "" L1) as [H2 L2].
  fold s2 in H2, L2.
  destruct (group_star_complete n "h" s2 "") as [H3 _]; [unfold n; lia|].
  auto.
Qed.

(** ** The carry loops *)

Lemma carry_div_mod (fuel : nat) (limit low high : Z) :
  0 < limit -> 0 <= low -> (Z.to_nat low <= fuel)%nat ->
  carry fuel limit low high = (low mod limit, high + low / limit).
Proof.
  intros Hlimit. revert low high.
  induction fuel as [|fuel IH]; intros low high Hlow Hfuel; simpl.
  - assert (low = 0) as -> by lia.
    rewrite Z.mod_0_l, Z.div_0_l by lia. f_equal. lia.
  - destruct (Z.leb_spec limit low) as [Hle|Hlt].
    + rewrite IH by lia. f_equal.
      * replace low with ((low - limit) + 1 * limit) at 2 by lia.
        now rewrite Z.mod_add by lia.
      * replace low with ((low - limit) + 1 * limit) at 2 by lia.
        rewrite Z.div_add by lia. lia.
    + rewrite Z.mod_small, Z.div_small by lia. f_equal. lia.
Qed.

Lemma carried_bounds (w d h : Z) :
  0 <= w -> 0 <= d -> 0 <= h ->
  let '(w', d', h') := carried w d h in
  0 <= w' /\ 0 <= d' < 5 /\ 0 <= h' < 8.
Proof.
  intros Hw Hd Hh. unfold carried.
  pose proof (Z.mod_pos_bound h 8 ltac:(lia)).
  pose proof (Z.mod_pos_bound (d + h / 8) 5 ltac:(lia)).
  pose proof (Z.div_pos h 8 Hh ltac:(lia)).
  pose proof (Z.div_pos (d + h / 8) 5 ltac:(lia) ltac:(lia)).
  lia.
Qed.

Lemma carried_fixed (w d h : Z) :
  0 <= d < 5 -> 0 <= h < 8 -> carried w d h = (w, d, h).
Proof.
  intros Hd Hh. unfold carried.
  rewrite (Z.div_small h 8), (Z.mod_small h 8) by lia.
  rewrite Z.add_0_r, (Z.div_small d 5), (Z.mod_small d 5) by lia.
  now rewrite Z.add_0_r.
Qed.

(** ** [validate_estimation] *)

(** From the three numbers read to the string returned. *)
Lemma estimation_of_groups (s : string) (w d h : string) (uw ud uh : Decimal.uint) :
  Re.findall_first s = (w, d, h) ->
  int (PStr ("0" ++ drop_last w)) = Ok (Z.of_uint uw) ->
  int (PStr ("0" ++ drop_last d)) = Ok (Z.of_uint ud) ->
  int (PStr ("0" ++ drop_last h)) = Ok (Z.of_uint uh) ->
  validate_estimation (PStr s)
  = Ok (render (carried (Z.of_uint uw) (Z.of_uint ud) (Z.of_uint uh))).
Proof.
  intros Hs Hw Hd Hh. unfold validate_estimation.
  rewrite Hs, Hw. cbn [bind]. rewrite Hd. cbn [bind]. rewrite Hh. cbn [bind].
  pose proof (of_uint_nonneg uw). pose proof (of_uint_nonneg ud).
  pose proof (of_uint_nonneg uh).
  rewrite carry_div_mod by lia. cbv iota beta.
  assert (0 <= Z.of_uint uh / 8) by (apply Z.div_pos; lia).
  rewrite carry_div_mod by lia.
  reflexivity.
Qed.

Lemma append_nil_r (a : string) : a ++ "" = a.
Proof. induction a as [|x a IH]; simpl; [reflexivity | now rewrite IH]. Qed.

Lemma group_once_skip (c x : ascii) (o : option string) (rest : string) :
  well_formed o = true -> is_digit x = false -> x <> c ->
  Re.group_once c rest = None ->
  Re.group_once c (component o x ++ rest) = None.
Proof.
  intros Ho Hx Hxc Hrest. destruct o as [ds|]; simpl; [|exact Hrest].
  rewrite append_assoc. simpl. apply group_once_other; try assumption.
  simpl in Ho. unfold is_int in Ho. now apply andb_true_iff in Ho.
Qed.

(** On a string of the grammar the three groups are its three components. *)
Lemma findall_first_duration (ow od oh : option string) :
  well_formed ow = true -> well_formed od = true -> well_formed oh = true ->
  Re.findall_first (duration ow od oh)
  = (component ow "w", component od "d", component oh "h").
Proof.
  intros Hw Hd Hh. unfold Re.findall_first, duration.
  set (n := String.length _).
  assert (Hn : n = (String.length (component ow "w")
                    + (String.length (component od "d")
                       + String.length (component oh "h")))%nat).
  { subst n. now rewrite !length_append. }
  assert (Hh0 : Re.group_once "h" "" = None) by reflexivity.
  rewrite group_star_component; try assumption; try reflexivity; try lia.
  2:{ apply group_once_skip; try assumption; try reflexivity; try discriminate.
      rewrite <- (append_nil_r (component oh "h")).
      apply group_once_skip; try assumption; try reflexivity; discriminate. }
  rewrite group_star_component; try assumption; try reflexivity; try lia.
  2:{ rewrite <- (append_nil_r (component oh "h")).
      apply group_once_skip; try assumption; try reflexivity; discriminate. }
  rewrite <- (append_nil_r (component oh "h")) at 1.
  rewrite group_star_component; try assumption; try reflexivity; try lia.
Qed.

Lemma int_component (o : option string) (c : ascii) :
  well_formed o = true ->
  exists u, int (PStr ("0" ++ drop_last (component o c))) = Ok (Z.of_uint u)
            /\ value o = Z.of_uint u.
Proof.
  intros Ho. destruct o as [ds|]; simpl.
  - rewrite drop_last_unit. simpl in Ho. unfold is_int in Ho.
    apply andb_true_iff in Ho as [Hne Hall].
    destruct (int_zero_digits ds Hall) as (u & Hu & Hint).
    exists u. split; [exact Hint|].
    apply NilEmpty.sus in Hu. now rewrite of_uint_decimal, Hu.
  - exists Decimal.Nil. split; reflexivity.
Qed.

(** The normaliser on the grammar: components read, carried and rendered. *)
Lemma estimation_duration (ow od oh : option string) :
  well_formed ow = true -> well_formed od = true -> well_formed oh = true ->
  validate_estimation (PStr (duration ow od oh))
  = Ok (render (carried (value ow) (value od) (value oh))).
Proof.
  intros Hw Hd Hh.
  destruct (int_component ow "w" Hw) as (uw & Iw & ->).
  destruct (int_component od "d" Hd) as (ud & Id & ->).
  destruct (int_component oh "h" Hh) as (uh & Ih & ->).
  now apply (estimation_of_groups _ _ _ _ _ _ _ (findall_first_duration _ _ _ Hw Hd Hh)).
Qed.

Lemma int_group (c : ascii) (tok : string) :
  (tok = EmptyString \/ exists ds, is_int ds = true /\ tok = ds ++ String c EmptyString) ->
  exists u, int (PStr ("0" ++ drop_last tok)) = Ok (Z.of_uint u).
Proof.
  intros [-> | (ds & Hds & ->)].
  - exists Decimal.Nil. reflexivity.
  - destruct (int_component (Some ds) c Hds) as (u & Hu & _). eauto.
Qed.

(** The normaliser on any string: three non-negative numbers are read and
    the result is their carried rendering. *)
Lemma estimation_any (s : string) :
  exists w d h, 0 <= w /\ 0 <= d /\ 0 <= h
    /\ validate_estimation (PStr s) = Ok (render (carried w d h)).
Proof.
  destruct (Re.findall_first s) as [[w d] h] eqn:E.
  assert (Hshape : exists uw ud uh,
             int (PStr ("0" ++ drop_last w)) = Ok (Z.of_uint uw)
             /\ int (PStr ("0" ++ drop_last d)) = Ok (Z.of_uint ud)
             /\ int (PStr ("0" ++ drop_last h)) = Ok (Z.of_uint uh)).
  { unfold Re.findall_first in E.
    pose proof (group_star_shape (String.length s) "w" s "" (or_introl eq_refl)) as Sw.
    destruct (Re.group_star (String.length s) "w" s "") as [w' s1].
    pose proof (group_star_shape (String.length s) "d" s1 "" (or_introl eq_refl)) as Sd.
    destruct (Re.group_star (String.length s) "d" s1 "") as [d' s2].
    pose proof (group_star_shape (String.length s) "h" s2 "" (or_introl eq_refl)) as Sh.
    destruct (Re.group_star (String.length s) "h" s2 "") as [h' s3].
    injection E as <- <- <-. simpl in Sw, Sd, Sh.
    destruct (int_group _ _ Sw) as [uw Hw].
    destruct (int_group _ _ Sd) as [ud Hd].
    destruct (int_group _ _ Sh) as [uh Hh].
    exists uw, ud, uh. auto. }
  destruct Hshape as (uw & ud & uh & Hw & Hd & Hh).
  exists (Z.of_uint uw), (Z.of_uint ud), (Z.of_uint uh).
  repeat split; try apply of_uint_nonneg.
  now apply (estimation_of_groups s w d h).
Qed.

Lemma shown_spec (n : Z) :
  0 <= n -> well_formed (shown n) = true /\ value (shown n) = n.
Proof.
  intros Hn. unfold shown. destruct (Z.ltb_spec 0 n) as [Hpos|Hle]; simpl.
  - destruct (str_positive n Hpos) as [H1 H2].
    split; [exact H1 | now apply digits_value_decimal].
  - split; [reflexivity | lia].
Qed.

(** A rendering is the string of the grammar with the numbers shown. *)
Lemma render_duration (w d h : Z) :
  render (w, d, h) = duration (shown w) (shown d) (shown h).
Proof.
  unfold render, duration, shown.
  destruct (0 <? w), (0 <? d), (0 <? h); reflexivity.
Qed.

(** Normalising the result of the normaliser gives it back, whatever the
    string normalised first. *)
Lemma estimation_idempotent (s r : string) :
  validate_estimation (PStr s) = Ok r -> validate_estimation (PStr r) = Ok r.
Proof.
  destruct (estimation_any s) as (w & d & h & Hw & Hd & Hh & E).
  rewrite E. intros Hr.
  pose proof (carried_bounds w d h Hw Hd Hh) as Hb.
  destruct (carried w d h) as [[w' d'] h']. destruct Hb as (Hw' & Hd' & Hh').
  assert (r = render (w', d', h')) as -> by congruence.
  rewrite render_duration.
  destruct (shown_spec w' Hw') as [W1 W2].
  destruct (shown_spec d') as [D1 D2]; [lia|].
  destruct (shown_spec h') as [H1 H2]; [lia|].
  rewrite estimation_duration by assumption.
  rewrite W2, D2, H2, carried_fixed by lia. now rewrite render_duration.
Qed.

(** ** The grammar and its decision procedure *)

Lemma skip_component_group (c : ascii) (s : string) :
  skip_component c s
  = match Re.group_once c s with Some (_, rest) => rest | None => s end.
Proof.
  unfold skip_component, Re.group_once.
  destruct (Re.span_digits s) as [[|a ds] [|x r]]; try reflexivity.
  now destruct (x =? c)%char.
Qed.

Lemma skip_component_split (c : ascii) (s : string) :
  exists o, well_formed o = true /\ s = component o c ++ skip_component c s.
Proof.
  rewrite skip_component_group.
  destruct (Re.group_once c s) as [[tok rest]|] eqn:E.
  - apply group_once_shape in E as (ds & Hds & -> & ->).
    exists (Some ds). split; [exact Hds | reflexivity].
  - exists None. split; reflexivity.
Qed.

(** Every string the procedure accepts is made of three optional
    components, and every such string is accepted. *)
Lemma in_grammar_duration (s : string) :
  in_grammar s = true <->
  exists ow od oh, well_formed ow = true /\ well_formed od = true
                   /\ well_formed oh = true /\ s = duration ow od oh.
Proof.
  unfold in_grammar. split.
  - intros H. apply String.eqb_eq in H.
    destruct (skip_component_split "w" s) as (ow & Hw & Ew).
    destruct (skip_component_split "d" (skip_component "w" s)) as (od & Hd & Ed).
    destruct (skip_component_split "h" (skip_component "d" (skip_component "w" s)))
      as (oh & Hh & Eh).
    rewrite H, append_nil_r in Eh. rewrite Eh in Ed. rewrite Ed in Ew.
    exists ow, od, oh. auto.
  - intros (ow & od & oh & Hw & Hd & Hh & ->). apply String.eqb_eq.
    assert (Hskip : forall c x o rest, well_formed o = true -> is_digit x = false ->
               x <> c -> Re.group_once c rest = None ->
               skip_component c (component o x ++ rest) = component o x ++ rest).
    { intros c x o rest Ho Hx Hxc Hrest.
      now rewrite skip_component_group, group_once_skip. }
    assert (Htake : forall c o rest, well_formed o = true -> is_digit c = false ->
               Re.group_once c rest = None ->
               skip_component c (component o c ++ rest) = rest).
    { intros c o rest Ho Hc Hrest. rewrite skip_component_group.
      destruct o as [ds|]; simpl; [|now rewrite Hrest].
      rewrite append_assoc. simpl. now rewrite group_once_token. }
    unfold duration.
    rewrite Htake; try assumption; try reflexivity.
    2:{ apply group_once_skip; try assumption; try reflexivity; try discriminate.
        rewrite <- (append_nil_r (component oh "h")).
        apply group_once_skip; try assumption; try reflexivity; discriminate. }
    rewrite Htake; try assumption; try reflexivity.
    2:{ rewrite <- (append_nil_r (component oh "h")).
        apply group_once_skip; try assumption; try reflexivity; discriminate. }
    rewrite <- (append_nil_r (component oh "h")).
    rewrite Htake; try assumption; reflexivity.
Qed.

(** A string that does not start with a digit: no group takes anything. *)
Lemma estimation_no_digit (s : string) :
  match s with String a _ => is_digit a = false | EmptyString => True end ->
  validate_estimation (PStr s) = Ok "".
Proof.
  intros H.
  assert (Hnone : forall c, Re.group_once c s = None).
  { intros c. unfold Re.group_once. destruct s as [|a r]; [reflexivity|].
    simpl. now rewrite H. }
  unfold validate_estimation, Re.findall_first.
  rewrite !group_star_stop by apply Hnone. reflexivity.
Qed.

(** * The claims on the estimation normaliser *)

(** C2. On every string of the grammar the normaliser reads the week, day and
    hour components (a missing one as 0), carries 8 hours into a day and 5
    days into a week, and renders the non-zero components in week, day, hour
    order; in particular "0h" gives "", "9h" gives "1d1h", and "5d" and "40h"
    give "1w". *)
Theorem estimation_normalizer_carries_and_renders :
  (forall ow od oh : option string,
      well_formed ow = true -> well_formed od = true -> well_formed oh = true ->
      validate_estimation (PStr (duration ow od oh))
      = Ok (render (carried (value ow) (value od) (value oh))))
  /\ validate_estimation (PStr "0h") = Ok ""
  /\ validate_estimation (PStr "9h") = Ok "1d1h"
  /\ validate_estimation (PStr "5d") = Ok "1w"
  /\ validate_estimation (PStr "40h") = Ok "1w".
Proof.
  split; [exact estimation_duration|].
  repeat split; reflexivity.
Qed.

Lemma estimation_normalizer_carries_and_renders_witness :
  well_formed (Some "2") = true /\ well_formed (Some "7") = true
  /\ well_formed (Some "19") = true
  /\ validate_estimation (PStr (duration (Some "2") (Some "7") (Some "19")))
     = Ok (render (carried (value (Some "2")) (value (Some "7")) (value (Some "19")))).
Proof.
  split; [reflexivity|]. split; [reflexivity|]. split; [reflexivity|].
  apply (proj1 estimation_normalizer_carries_and_renders); reflexivity.
Defined.

(** C3, as amended.  The normaliser never fails on a string, inside the
    grammar or not: it always returns a string, and a string that does not
    start with a digit (a negative or a non-numeric component) is normalised
    to the empty string. *)
Theorem estimation_normalizer_total (s : string) :
  (exists r, validate_estimation (PStr s) = Ok r)
  /\ (match s with String a _ => is_digit a = false | EmptyString => True end ->
      validate_estimation (PStr s) = Ok "").
Proof.
  split; [|apply estimation_no_digit].
  destruct (estimation_any s) as (w & d & h & _ & _ & _ & E). eauto.
Qed.

Lemma estimation_normalizer_total_witness :
  is_digit "-" = false /\ validate_estimation (PStr "-5h") = Ok "".
Proof.
  split; [reflexivity|].
  apply (proj2 (estimation_normalizer_total "-5h")). reflexivity.
Defined.

(** C3 as stated fails: "-5h" and "abc" are outside the grammar and are
    normalised to the empty string instead of being refused. *)
Lemma estimation_outside_grammar_accepted :
  in_grammar "-5h" = false
  /\ validate_estimation (PStr "-5h") = Ok ""
  /\ in_grammar "abc" = false
  /\ validate_estimation (PStr "abc") = Ok ""
  /\ forall e, validate_estimation (PStr "-5h") <> Raise e.
Proof. repeat split; try reflexivity. intros e. discriminate. Qed.

(** C4. The normaliser is idempotent on the grammar: normalising the
    normal form of a string of the grammar gives that normal form. *)
Theorem estimation_normalizer_idempotent (s : string) :
  in_grammar s = true ->
  exists r, validate_estimation (PStr s) = Ok r
            /\ validate_estimation (PStr r) = Ok r.
Proof.
  intros _. destruct (estimation_any s) as (w & d & h & _ & _ & _ & Hr).
  eexists. split; [exact Hr | exact (estimation_idempotent s _ Hr)].
Qed.

Lemma estimation_normalizer_idempotent_witness :
  in_grammar "1w7d19h" = true
  /\ exists r, validate_estimation (PStr "1w7d19h") = Ok r
               /\ validate_estimation (PStr r) = Ok r.
Proof.
  split; [reflexivity|].
  apply (estimation_normalizer_idempotent "1w7d19h"). reflexivity.
Defined.

(** * The claims on the name check *)

Import BaseCustomAttributeValidator.

Lemma eqb_opt_Z_eq (a b : option Z) : eqb_opt_Z a b = true <-> a = b.
Proof.
  destruct a as [x|], b as [y|]; simpl; try (split; congruence).
  rewrite Z.eqb_eq. split; congruence.
Qed.

Lemma eqb_opt_string_eq (a b : option string) : eqb_opt_string a b = true <-> a = b.
Proof.
  destruct a as [x|], b as [y|]; simpl; try (split; congruence).
  rewrite String.eqb_eq. split; congruence.
Qed.

Lemma collides_spec (i : option Z) (n : option string) (p : option Z) (r : CustomAttribute) :
  collides i n p r = true
  <-> Some (ca_project r) = p /\ Some (ca_name r) = n /\ Some (ca_id r) <> i.
Proof.
  unfold collides. rewrite !andb_true_iff, negb_true_iff.
  rewrite eqb_opt_Z_eq, eqb_opt_string_eq.
  rewrite <- not_true_iff_false, eqb_opt_Z_eq. tauto.
Qed.

Lemma filter_nonempty {A : Type} (f : A -> bool) (l : list A) :
  filter f l <> [] <-> exists x, In x l /\ f x = true.
Proof.
  split.
  - destruct (filter f l) as [|x q] eqn:E; [congruence|]. intros _.
    exists x. apply filter_In. rewrite E. now left.
  - intros (x & Hx) E. apply filter_In in Hx. rewrite E in Hx. exact Hx.
Qed.

(** The check on the resolved fields: it fails exactly on a collision and
    returns [attrs] otherwise. *)
Lemma integrity_check_spec (db : database) (kind : entity_kind)
  (self_object : option CustomAttribute) (attrs : BaseCustomAttributeValidator.attrs_t)
  (i : option Z) (n : option string) (p : option Z) :
  resolve self_object attrs = (i, n, p) ->
  (_validate_integrity_between_project_and_name db kind self_object attrs
   = Raise (ValidationError AlreadyExists)
   <-> exists r, In r (db kind) /\ Some (ca_project r) = p
                 /\ Some (ca_name r) = n /\ Some (ca_id r) <> i)
  /\ (_validate_integrity_between_project_and_name db kind self_object attrs
      = Ok attrs
      <-> ~ exists r, In r (db kind) /\ Some (ca_project r) = p
                      /\ Some (ca_name r) = n /\ Some (ca_id r) <> i).
Proof.
  intros E. unfold _validate_integrity_between_project_and_name, Meta_model.
  rewrite E.
  assert (H : filter (collides i n p) (db kind) <> []
              <-> exists r, In r (db kind) /\ Some (ca_project r) = p
                            /\ Some (ca_name r) = n /\ Some (ca_id r) <> i).
  { rewrite filter_nonempty. split; intros (r & Hr & Hc); exists r;
      (split; [exact Hr|]); now apply collides_spec. }
  destruct (filter (collides i n p) (db kind)) as [|x q].
  - split; split; try discriminate; try reflexivity.
    + intros He. apply H in He. congruence.
    + intros _ He. apply H in He. congruence.
  - assert (He : x :: q <> []) by discriminate. apply H in He.
    split; split; try discriminate; try reflexivity; try tauto.
Qed.

Lemma unique_names_spec (table : list CustomAttribute) (r r' : CustomAttribute) :
  unique_names table = true -> In r table -> In r' table ->
  ca_project r = ca_project r' -> ca_name r = ca_name r' -> ca_id r = ca_id r'.
Proof.
  induction table as [|x rest IH]; simpl; [tauto|].
  intros H Hr Hr' Hp Hn. apply andb_true_iff in H as [Hx Hrest].
  rewrite forallb_forall in Hx.
  assert (Hkey : forall a b, In b rest -> a = x -> ca_project a = ca_project b ->
                   ca_name a = ca_name b -> ca_id a = ca_id b).
  { intros a b Hb -> Hpab Hnab. specialize (Hx b Hb).
    unfold same_project_and_name in Hx.
    rewrite Hpab, Hnab, Z.eqb_refl, String.eqb_refl in Hx. simpl in Hx.
    now apply Z.eqb_eq. }
  destruct Hr as [Hr|Hr], Hr' as [Hr'|Hr'].
  - congruence.
  - now apply Hkey.
  - symmetry. now apply Hkey.
  - now apply IH.
Qed.

(** C1. On the resolved fields the check fails with "Already exists one with
    the same name." exactly when the model of the validator's entity kind has
    a row with that project and that name and another id, and returns [attrs]
    otherwise.  In particular renaming a definition to the name it has
    succeeds, and so does creating one under a name used in other projects
    only. *)
Theorem uniqueness_check_duplicate_name :
  (forall db kind self_object attrs i n p,
      resolve self_object attrs = (i, n, p) ->
      (_validate_integrity_between_project_and_name db kind self_object attrs
       = Raise (ValidationError AlreadyExists)
       <-> exists r, In r (db kind) /\ Some (ca_project r) = p
                     /\ Some (ca_name r) = n /\ Some (ca_id r) <> i)
      /\ (_validate_integrity_between_project_and_name db kind self_object attrs
          = Ok attrs
          <-> ~ exists r, In r (db kind) /\ Some (ca_project r) = p
                          /\ Some (ca_name r) = n /\ Some (ca_id r) <> i))
  /\ (forall (db : database) kind o,
         In o (db kind) -> unique_names (db kind) = true ->
         let attrs := {| attrs_id := None; attrs_name := Some (ca_name o);
                         attrs_project := None |} in
         _validate_integrity_between_project_and_name db kind (Some o) attrs = Ok attrs)
  /\ (forall (db : database) kind name project,
         (forall r, In r (db kind) -> ca_name r = name -> ca_project r <> project) ->
         let attrs := {| attrs_id := None; attrs_name := Some name;
                         attrs_project := Some project |} in
         _validate_integrity_between_project_and_name db kind None attrs = Ok attrs).
Proof.
  split; [exact integrity_check_spec|]. split.
  - intros db kind o Ho Huniq attrs.
    apply (integrity_check_spec db kind (Some o) attrs
             (Some (ca_id o)) (Some (ca_name o)) (Some (ca_project o))).
    + unfold resolve, attrs. simpl. unfold or_str.
      now destruct (String.eqb_spec (ca_name o) "") as [->|].
    + intros (r & Hr & [= Hp] & [= Hn] & Hid). apply Hid. f_equal.
      now apply (unique_names_spec (db kind)).
  - intros db kind name project Hfree attrs.
    apply (integrity_check_spec db kind None attrs None (Some name) (Some project)).
    + reflexivity.
    + intros (r & Hr & [= Hp] & [= Hn] & _). now apply (Hfree r).
Qed.

Lemma uniqueness_check_duplicate_name_witness :
  In Samples.severity (Samples.issues_db Issue)
  /\ unique_names (Samples.issues_db Issue) = true
  /\ _validate_integrity_between_project_and_name Samples.issues_db Issue
       (Some Samples.severity)
       {| attrs_id := None; attrs_name := Some "severity"; attrs_project := None |}
     = Ok {| attrs_id := None; attrs_name := Some "severity"; attrs_project := None |}
  /\ _validate_integrity_between_project_and_name Samples.issues_db Issue None
       {| attrs_id := None; attrs_name := Some "browser"; attrs_project := Some 1 |}
     = Ok {| attrs_id := None; attrs_name := Some "browser"; attrs_project := Some 1 |}.
Proof.
  split; [now left|]. split; [reflexivity|]. split.
  - apply (proj1 (proj2 uniqueness_check_duplicate_name)
             Samples.issues_db Issue Samples.severity).
    + now left.
    + reflexivity.
  - apply (proj2 (proj2 uniqueness_check_duplicate_name)
             Samples.issues_db Issue "browser" 1).
    simpl. intros r [<-|[<-|[]]]; simpl; intros Hn; [discriminate Hn | lia].
Defined.

(** C8, as amended.  With an existing record, a field that is missing from
    the change, or present with a false value (id 0, the empty name), takes
    the value of the existing record; a field present with a true value keeps
    the value proposed.  Without an existing record the fields are taken from
    the change as they are. *)
Theorem resolve_falls_back_on_false_values (o : CustomAttribute)
  (attrs : BaseCustomAttributeValidator.attrs_t) :
  let '(data_id, data_name, data_project) := resolve (Some o) attrs in
  (attrs_id attrs = None \/ attrs_id attrs = Some 0 -> data_id = Some (ca_id o))
  /\ (attrs_name attrs = None \/ attrs_name attrs = Some "" -> data_name = Some (ca_name o))
  /\ (attrs_project attrs = None -> data_project = Some (ca_project o))
  /\ (forall z, attrs_id attrs = Some z -> z <> 0 -> data_id = Some z)
  /\ (forall s, attrs_name attrs = Some s -> s <> "" -> data_name = Some s)
  /\ (forall q, attrs_project attrs = Some q -> data_project = Some q)
  /\ resolve None attrs = (attrs_id attrs, attrs_name attrs, attrs_project attrs).
Proof.
  unfold resolve. destruct attrs as [i n p]. simpl.
  repeat split.
  - now intros [->| ->].
  - now intros [->| ->].
  - now intros ->.
  - intros z -> Hz. simpl. apply Z.eqb_neq in Hz. now rewrite Hz.
  - intros s -> Hs. simpl. apply String.eqb_neq in Hs. now rewrite Hs.
  - now intros q ->.
Qed.

Lemma resolve_falls_back_on_false_values_witness :
  resolve (Some Samples.severity)
    {| attrs_id := None; attrs_name := Some "impact"; attrs_project := None |}
  = (Some 3, Some "impact", Some 1).
Proof.
  pose proof (resolve_falls_back_on_false_values Samples.severity
                {| attrs_id := None; attrs_name := Some "impact";
                   attrs_project := None |}) as H.
  destruct (resolve _ _) as [[i n] p].
  destruct H as (Hi & _ & Hp & _ & Hn & _).
  rewrite (Hi (or_introl eq_refl)), (Hp eq_refl).
  rewrite (Hn "impact" eq_refl); [reflexivity | discriminate].
Defined.

(** C8 as stated fails: the empty name is present in the change, yet the
    name checked is the one of the existing record. *)
Lemma resolve_ignores_proposed_empty_name :
  resolve (Some Samples.severity)
    {| attrs_id := None; attrs_name := Some ""; attrs_project := None |}
  = (Some 3, Some "severity", Some 1)
  /\ Some "severity" <> Some "".
Proof. split; [reflexivity | discriminate]. Qed.

(** * The claims on the values payload *)

(** ** The estimation loop keeps the keys *)

Lemma assoc_set_keys (d : list (string * pyval)) (k : string) (v : pyval) :
  In k (map fst d) -> map fst (assoc_set d k v) = map fst d.
Proof.
  induction d as [|[k' v'] d IH]; simpl; [tauto|].
  intros [->|Hin].
  - now rewrite String.eqb_refl.
  - destruct (k' =? k)%string; simpl; [reflexivity | now rewrite IH].
Qed.

Lemma iter_nth_dict (d : list (string * pyval)) (i : nat) (key : pyval) :
  iter_nth (PDict d) i = Some key ->
  exists k, key = PStr k /\ nth_error (map fst d) i = Some k.
Proof.
  simpl. rewrite nth_error_map.
  destruct (nth_error d i) as [[k v]|]; simpl; [|discriminate].
  intros [= <-]. eauto.
Qed.

(** One turn of the loop body on a dict: a dict with the same keys. *)
Lemma loop_body_keys (d : list (string * pyval)) (k : string) (c : pyval) :
  In k (map fst d) ->
  (v <- getitem (PDict d) (PStr k) ;;
   e <- validate_estimation v ;;
   setitem (PDict d) (PStr k) (PStr e)) = Ok c ->
  exists d', c = PDict d' /\ map fst d' = map fst d.
Proof.
  intros Hk. destruct (getitem (PDict d) (PStr k)) as [v|]; simpl; [|discriminate].
  destruct (validate_estimation v) as [e|]; simpl; [|discriminate].
  intros [= <-]. eexists. split; [reflexivity | now apply assoc_set_keys].
Qed.

Lemma estimation_loop_keys (ids : list Z) (steps i : nat) (d : list (string * pyval)) :
  exists d', fst (estimation_loop ids steps i (PDict d)) = PDict d'
             /\ map fst d' = map fst d.
Proof.
  revert i d. induction steps as [|steps IH]; intros i d.
  - exists d. split; reflexivity.
  - cbn [estimation_loop].
    destruct (iter_nth (PDict d) i) as [key|] eqn:Ekey; [|exists d; split; reflexivity].
    destruct (iter_nth_dict d i key Ekey) as (k & -> & Hk).
    apply nth_error_In in Hk.
    destruct (int (PStr k)) as [z|]; [|exists d; split; reflexivity].
    destruct (mem z ids); [|apply IH].
    destruct (v <- getitem (PDict d) (PStr k) ;; e <- validate_estimation v ;;
              setitem (PDict d) (PStr k) (PStr e)) as [c|] eqn:Ebody;
      [|exists d; split; reflexivity].
    destruct (loop_body_keys d k c Hk Ebody) as (d1 & -> & Hd1).
    destruct (IH (S i) d1) as (d' & E & Hd'). exists d'. split; [exact E | congruence].
Qed.

Lemma get_beyond (s : string) (i : nat) :
  (String.length s <= i)%nat -> String.get i s = None.
Proof.
  revert i. induction s as [|a s IH]; intros i H; [reflexivity|].
  destruct i as [|i]; simpl in *; [lia | apply IH; lia].
Qed.

Lemma iter_nth_beyond (v : pyval) (i : nat) :
  (len v <= i)%nat -> iter_nth v i = None.
Proof.
  intros H. destruct v; simpl in *; try reflexivity.
  - now rewrite get_beyond.
  - now apply nth_error_None.
  - rewrite (proj2 (nth_error_None d i)); [reflexivity | exact H].
Qed.

Lemma list_set_length (l : list pyval) (i : nat) (v : pyval) :
  List.length (list_set l i v) = List.length l.
Proof.
  revert i. induction l as [|x l IH]; intros [|i]; simpl; auto.
Qed.

Lemma setitem_len (c key v c' : pyval) :
  (exists x, getitem c key = Ok x) -> setitem c key v = Ok c' -> len c' = len c.
Proof.
  intros [x Hget]. destruct c; simpl in *; try discriminate.
  - destruct (as_index key); [|discriminate].
    destruct (list_index (List.length l) z); [|discriminate].
    intros [= <-]. simpl. apply list_set_length.
  - destruct key; try discriminate. intros [= <-]. simpl.
    rewrite <- !(length_map fst). f_equal. apply assoc_set_keys.
    destruct (assoc_get d s) eqn:E; [|discriminate]. clear Hget.
    induction d as [|[k w] d IH]; simpl in *; [discriminate|].
    destruct (String.eqb_spec k s); [now left | right; now apply IH].
Qed.

(** The loop is a [for] loop: it ends with the container, and more steps
    than the container has items change nothing. *)
Lemma estimation_loop_fuel (ids : list Z) (steps extra i : nat) (c : pyval) :
  (len c <= i + steps)%nat ->
  estimation_loop ids (steps + extra) i c = estimation_loop ids steps i c.
Proof.
  revert i c. induction steps as [|steps IH]; intros i c H.
  - rewrite Nat.add_0_r in H. simpl.
    destruct extra; [reflexivity|]. simpl. now rewrite iter_nth_beyond.
  - simpl. destruct (iter_nth c i) as [key|]; [|reflexivity].
    destruct (int key) as [k|]; [|reflexivity].
    destruct (mem k ids); [|apply IH; lia].
    destruct (getitem c key) as [x|] eqn:Hget; [|reflexivity]. cbn [bind].
    destruct (validate_estimation x) as [e|]; [|reflexivity]. cbn [bind].
    destruct (setitem c key (PStr e)) as [c'|] eqn:Hset; [|reflexivity].
    apply IH. rewrite (setitem_len c key (PStr e) c'); eauto. lia.
Qed.

(** The referential check reads the keys of the mapping and the container
    entry of [attrs], nothing else. *)
Lemma check_keys_ext (db : database) (kind : entity_kind)
  (self_object : option CustomAttributesValues)
  (attrs attrs' : BaseCustomAttributesValuesValidator.attrs_t)
  (d d' : list (string * pyval)) :
  attrs_container attrs' = attrs_container attrs -> map fst d' = map fst d ->
  check_keys db kind self_object attrs' d' = check_keys db kind self_object attrs d.
Proof. intros Hc Hk. unfold check_keys. now rewrite Hc, Hk. Qed.

(** [validate_attributes_values] after a loop that went through. *)
Lemma validate_after_loop (db : database) (kind : entity_kind)
  (self_object : option CustomAttributesValues)
  (v v' : pyval) (c : option Container) :
  normalize_estimations (estimate_field_ids db) v = (v', Ok tt) ->
  let attrs' := {| attrs_attributes_values := Some v'; attrs_container := c |} in
  validate_attributes_values db kind self_object
    {| attrs_attributes_values := Some v; attrs_container := c |}
  = (QAll UserStory :: fst (check_values db kind self_object attrs' v'),
     _ <- snd (check_values db kind self_object attrs' v') ;; Ok attrs').
Proof.
  intros E. unfold validate_attributes_values. cbn [attrs_attributes_values attrs_container].
  rewrite E. now destruct (check_values _ _ _ _ _).
Qed.

(** The checks after the loop read the keys of the mapping, its emptiness and
    the container entry of [attrs]: they give on the mapping the loop leaves
    what they give on the mapping it was given. *)
Lemma check_values_same_keys (db : database) (kind : entity_kind)
  (self_object : option CustomAttributesValues)
  (attrs attrs' : BaseCustomAttributesValuesValidator.attrs_t)
  (d d' : list (string * pyval)) :
  attrs_container attrs' = attrs_container attrs -> map fst d' = map fst d ->
  check_values db kind self_object attrs' (PDict d')
  = check_values db kind self_object attrs (PDict d).
Proof.
  intros Hc Hk. unfold check_values.
  assert (Ht : truthy (PDict d') = truthy (PDict d)).
  { destruct d, d'; try reflexivity; discriminate Hk. }
  destruct self_object as [o|]; [|now apply check_keys_ext].
  rewrite Ht. destruct (truthy (PDict d)); [now apply check_keys_ext|].
  destruct (attributes_values o); try reflexivity.
  unfold check_keys. now rewrite Hc.
Qed.

(** C9, as amended.  The estimation loop changes values only: the dict it
    leaves has the keys of the dict it was given, in the same order, whether it
    went through or stopped on an exception.  So, when the loop went through,
    the checks that follow give what they give on the original mapping; and the
    referential check is the one of the original keys whenever the mapping
    supplied is the one checked, that is unless it is empty and there is an
    existing payload. *)
Theorem estimation_step_keeps_keys :
  (forall ids d,
      exists d', fst (normalize_estimations ids (PDict d)) = PDict d'
                 /\ map fst d' = map fst d)
  /\ (forall db kind self_object d c,
         snd (normalize_estimations (estimate_field_ids db) (PDict d)) = Ok tt ->
         let attrs := {| attrs_attributes_values := Some (PDict d);
                         attrs_container := c |} in
         fst (validate_attributes_values db kind self_object attrs)
         = QAll UserStory :: fst (check_values db kind self_object attrs (PDict d))
         /\ forall e,
             snd (validate_attributes_values db kind self_object attrs) = Raise e
             <-> snd (check_values db kind self_object attrs (PDict d)) = Raise e)
  /\ (forall db kind self_object d c,
         d <> [] \/ self_object = None ->
         snd (normalize_estimations (estimate_field_ids db) (PDict d)) = Ok tt ->
         let attrs := {| attrs_attributes_values := Some (PDict d);
                         attrs_container := c |} in
         fst (validate_attributes_values db kind self_object attrs)
         = QAll UserStory :: fst (check_keys db kind self_object attrs d)
         /\ forall e,
             snd (validate_attributes_values db kind self_object attrs) = Raise e
             <-> snd (check_keys db kind self_object attrs d) = Raise e).
Proof.
  assert (Hgen : forall db kind self_object d c,
             snd (normalize_estimations (estimate_field_ids db) (PDict d)) = Ok tt ->
             let attrs := {| attrs_attributes_values := Some (PDict d);
                             attrs_container := c |} in
             fst (validate_attributes_values db kind self_object attrs)
             = QAll UserStory :: fst (check_values db kind self_object attrs (PDict d))
             /\ forall e,
                 snd (validate_attributes_values db kind self_object attrs) = Raise e
                 <-> snd (check_values db kind self_object attrs (PDict d)) = Raise e).
  { intros db kind self_object d c Hok attrs.
    destruct (estimation_loop_keys (estimate_field_ids db) (len (PDict d)) O d)
      as (d' & Hfst & Hkeys).
    change (estimation_loop _ _ _ _)
      with (normalize_estimations (estimate_field_ids db) (PDict d)) in Hfst.
    destruct (normalize_estimations (estimate_field_ids db) (PDict d)) as [v' r] eqn:E.
    simpl in Hfst, Hok. subst v' r.
    unfold attrs. rewrite (validate_after_loop _ _ _ _ _ _ E). cbn [fst snd].
    rewrite (check_values_same_keys db kind self_object
               {| attrs_attributes_values := Some (PDict d); attrs_container := c |}
               {| attrs_attributes_values := Some (PDict d'); attrs_container := c |}
               d d' eq_refl Hkeys).
    split; [reflexivity|].
    intros e. destruct (snd (check_values _ _ _ _ _)); simpl; split; congruence. }
  split; [|split].
  - intros ids d. apply estimation_loop_keys.
  - exact Hgen.
  - intros db kind self_object d c Hd Hok attrs.
    assert (Hsel : check_values db kind self_object attrs (PDict d)
                   = check_keys db kind self_object attrs d).
    { unfold check_values. destruct self_object as [o|]; [|reflexivity].
      destruct Hd as [Hd|Hd]; [|discriminate Hd].
      destruct d; [congruence | reflexivity]. }
    rewrite <- Hsel. now apply Hgen.
Qed.

Lemma estimation_step_keeps_keys_witness :
  ([("1", PStr "13h")] <> [] \/ @None CustomAttributesValues = None)
  /\ snd (normalize_estimations (estimate_field_ids Samples.stories_db)
            (PDict [("1", PStr "13h")])) = Ok tt
  /\ fst (validate_attributes_values Samples.stories_db UserStory None
            {| attrs_attributes_values := Some (PDict [("1", PStr "13h")]);
               attrs_container := Some {| project_id := 1 |} |})
     = QAll UserStory
       :: fst (check_keys Samples.stories_db UserStory None
                 {| attrs_attributes_values := Some (PDict [("1", PStr "13h")]);
                    attrs_container := Some {| project_id := 1 |} |}
                 [("1", PStr "13h")]).
Proof.
  split; [right; reflexivity|]. split; [reflexivity|].
  apply (proj2 (proj2 estimation_step_keeps_keys) Samples.stories_db UserStory None
           [("1", PStr "13h")] (Some {| project_id := 1 |})).
  - right. reflexivity.
  - reflexivity.
Defined.

(** C9 as stated fails: the mapping supplied is empty, the loop leaves it
    as it is, and the referential check runs against the key of the mapping
    stored on the existing payload, not against the original keys, of which
    there are none. *)
Lemma referential_check_on_stored_keys :
  normalize_estimations (estimate_field_ids Samples.tasks_db) (PDict [])
  = (PDict [], Ok tt)
  /\ fst (validate_attributes_values Samples.tasks_db Task
            (Some {| attributes_values := PDict [("9", PStr "x")];
                     container := {| project_id := 1 |} |})
            {| attrs_attributes_values := Some (PDict []); attrs_container := None |})
     = [QAll UserStory; QCount Task (Some 1) ["9"]]
  /\ map fst (@nil (string * pyval)) <> ["9"].
Proof. split; [reflexivity|]. split; [reflexivity | discriminate]. Qed.

(** C10. When the mapping supplied is empty and there is an existing payload,
    the type test and the referential check are those of the mapping stored
    on the existing payload: an empty dict is false, so [data_values or
    self.object.attributes_values] is the stored mapping.  A stored key that
    no longer names an attribute then fails the update, while the same change
    without an existing payload passes. *)
Theorem empty_mapping_checks_stored_mapping :
  (forall db kind o c,
      let attrs := {| attrs_attributes_values := Some (PDict []);
                      attrs_container := c |} in
      validate_attributes_values db kind (Some o) attrs
      = match attributes_values o with
        | PDict stored =>
            (QAll UserStory :: fst (check_keys db kind (Some o) attrs stored),
             _ <- snd (check_keys db kind (Some o) attrs stored) ;; Ok attrs)
        | _ => ([QAll UserStory], Raise (ValidationError InvalidContent))
        end)
  /\ validate_attributes_values Samples.tasks_db Task
       (Some {| attributes_values := PDict [("9", PStr "x")];
                container := {| project_id := 1 |} |})
       {| attrs_attributes_values := Some (PDict []); attrs_container := None |}
     = ([QAll UserStory; QCount Task (Some 1) ["9"]],
        Raise (ValidationError InvalidCustomFields))
  /\ validate_attributes_values Samples.tasks_db Task None
       {| attrs_attributes_values := Some (PDict []); attrs_container := None |}
     = ([QAll UserStory; QCount Task None []],
        Ok {| attrs_attributes_values := Some (PDict []); attrs_container := None |}).
Proof.
  split; [|split; reflexivity].
  intros db kind o c attrs. unfold attrs.
  rewrite (validate_after_loop db kind (Some o) (PDict []) (PDict []) c eq_refl).
  unfold check_values. cbn [truthy].
  destruct (attributes_values o); try reflexivity.
Qed.

(** ** The referential check *)

Lemma mem_In (z : Z) (l : list Z) : mem z l = true <-> In z l.
Proof.
  unfold mem. rewrite existsb_exists. split.
  - intros (x & Hx & E). apply Z.eqb_eq in E. now subst.
  - intros H. exists z. split; [exact H | apply Z.eqb_refl].
Qed.

Lemma prep_ids_length (keys : list string) (ids : list Z) :
  prep_ids keys = Ok ids -> List.length ids = List.length keys.
Proof.
  revert ids. induction keys as [|k keys IH]; simpl; intros ids.
  - now intros [= <-].
  - destruct (int_of_str k); simpl; [|discriminate].
    destruct (prep_ids keys) as [zs|]; simpl; [|discriminate].
    intros [= <-]. simpl. now rewrite (IH zs).
Qed.

(** Rows selected from a model with primary keys have distinct ids. *)
Lemma selected_ids_NoDup (sel : CustomAttribute -> bool) (table : list CustomAttribute) :
  unique_ids table = true -> NoDup (map ca_id (filter sel table)).
Proof.
  induction table as [|r rest IH]; simpl; intros H; [constructor|].
  apply andb_true_iff in H as [Hr Hrest].
  destruct (sel r); simpl; [|now apply IH].
  constructor; [|now apply IH].
  intros Hin. apply in_map_iff in Hin as (r' & Hid & Hr').
  apply filter_In in Hr' as [Hr' _].
  apply negb_true_iff in Hr. apply not_true_iff_false in Hr. apply Hr.
  apply existsb_exists. exists r'. split; [exact Hr'|]. apply Z.eqb_eq. congruence.
Qed.

(** A key whose attribute is not in the project leaves fewer rows than keys. *)
Lemma missing_id_count (table : list CustomAttribute) (project : option Z)
  (ids : list Z) (z : Z) :
  unique_ids table = true -> In z ids ->
  (forall r, In r table -> ca_id r = z -> Some (ca_project r) <> project) ->
  (List.length (filter (in_project project ids) table) < List.length ids)%nat.
Proof.
  intros Huniq Hz Hmiss.
  rewrite <- (length_map ca_id).
  apply Nat.le_lt_trans with (List.length (remove Z.eq_dec z ids));
    [|now apply remove_length_lt].
  apply NoDup_incl_length.
  - now apply selected_ids_NoDup.
  - intros x Hx. apply in_map_iff in Hx as (r & <- & Hr).
    apply filter_In in Hr as [Hr Hsel]. unfold in_project in Hsel.
    apply andb_true_iff in Hsel as [Hp Hm].
    apply eqb_opt_Z_eq in Hp. apply mem_In in Hm.
    apply in_in_remove; [|exact Hm].
    intros Hid. now apply (Hmiss r Hr Hid).
Qed.

Lemma check_keys_unfold (db : database) (kind : entity_kind)
  (self_object : option CustomAttributesValues)
  (attrs : BaseCustomAttributesValuesValidator.attrs_t)
  (d : list (string * pyval)) (ids : list Z) :
  prep_ids (map fst d) = Ok ids ->
  check_keys db kind self_object attrs d
  = ([QCount kind (effective_project self_object attrs) (map fst d)],
     if (List.length (filter (in_project (effective_project self_object attrs) ids)
                        (db kind))
         =? List.length (map fst d))%nat
     then Ok tt else Raise (ValidationError InvalidCustomFields)).
Proof.
  intros E. unfold check_keys, effective_project, _custom_attribute_model.
  rewrite E. now destruct (attrs_container attrs), self_object.
Qed.




(** ** Where the code departs from the claims *)

(** C6 does not hold of the code.  The ids of the estimation attributes are
    read from the user-story model whatever the entity kind of the validator:
    the value "13h" of a task attribute of type "est" is returned as it is,
    where it is rewritten to "1d5h" for the same attribute of a user story, and
    the value of a text attribute of a task is normalised (here to the empty
    string) when a user-story attribute of type "est" has the same id. *)
Theorem estimation_lookup_ignores_entity_kind :
  (forall db db' : database,
      db UserStory = db' UserStory -> estimate_field_ids db = estimate_field_ids db')
  /\ validate_attributes_values Samples.tasks_db Task None
       {| attrs_attributes_values := Some (PDict [("1", PStr "13h")]);
          attrs_container := Some {| project_id := 1 |} |}
     = ([QAll UserStory; QCount Task (Some 1) ["1"]],
        Ok {| attrs_attributes_values := Some (PDict [("1", PStr "13h")]);
              attrs_container := Some {| project_id := 1 |} |})
  /\ validate_attributes_values Samples.stories_db UserStory None
       {| attrs_attributes_values := Some (PDict [("1", PStr "13h")]);
          attrs_container := Some {| project_id := 1 |} |}
     = ([QAll UserStory; QCount UserStory (Some 1) ["1"]],
        Ok {| attrs_attributes_values := Some (PDict [("1", PStr "1d5h")]);
              attrs_container := Some {| project_id := 1 |} |})
  /\ validate_attributes_values Samples.mixed_db Task None
       {| attrs_attributes_values := Some (PDict [("1", PStr "see ticket 12")]);
          attrs_container := Some {| project_id := 1 |} |}
     = ([QAll UserStory; QCount Task (Some 1) ["1"]],
        Ok {| attrs_attributes_values := Some (PDict [("1", PStr "")]);
              attrs_container := Some {| project_id := 1 |} |}).
Proof.
  split; [|repeat split].
  intros db db' H. unfold estimate_field_ids. now rewrite H.
Qed.

(** C7 does not hold of the code.  The user-story attributes are queried and
    the estimation loop is run before the test that the value is a dict: an
    integer payload stops the validation with a [TypeError] after that query,
    and a payload the loop gets through, such as the empty list, is refused
    with "Invalid content." only after it. *)
Theorem non_mapping_payload_meets_loop_first :
  (forall db kind self_object c z,
      validate_attributes_values db kind self_object
        {| attrs_attributes_values := Some (PInt z); attrs_container := c |}
      = ([QAll UserStory], Raise TypeError))
  /\ (forall db kind c,
         validate_attributes_values db kind None
           {| attrs_attributes_values := Some (PList []); attrs_container := c |}
         = ([QAll UserStory], Raise (ValidationError InvalidContent))).
Proof. split; reflexivity. Qed.

(** * Further properties of the estimation normaliser *)

Import Repeated.

Lemma group_once_no_digit (c : ascii) (rest : string) :
  no_digit_first rest = true -> Re.group_once c rest = None.
Proof.
  unfold Re.group_once. destruct rest as [|a r]; [reflexivity|]. simpl.
  intros H. apply negb_true_iff in H. now rewrite H.
Qed.

Lemma units_app_tail (ds : string) (more : list string) (c : ascii) (tail : string) :
  units (ds :: more) c ++ tail = ds ++ String c (units more c ++ tail).
Proof. simpl. now rewrite append_assoc. Qed.

(** Components of another unit in front: the group does not match. *)
Lemma group_once_units_other (c x : ascii) (ints : list string) (tail : string) :
  forallb is_int ints = true -> is_digit x = false -> x <> c ->
  (ints = [] -> Re.group_once c tail = None) ->
  Re.group_once c (units ints x ++ tail) = None.
Proof.
  intros Hall Hx Hxc Htail. destruct ints as [|ds more]; [now apply Htail|].
  rewrite units_app_tail. apply group_once_other; try assumption.
  simpl in Hall. apply andb_true_iff in Hall as [Hds _].
  unfold is_int in Hds. now apply andb_true_iff in Hds.
Qed.

(** A run of components of the unit of the group: the group keeps the last. *)
Lemma group_star_units (c : ascii) (ints : list string) (tail : string) :
  forallb is_int ints = true -> is_digit c = false ->
  Re.group_once c tail = None ->
  forall fuel captured,
    (String.length (units ints c) <= fuel)%nat ->
    Re.group_star fuel c (units ints c ++ tail) captured
    = (match ints with
       | [] => captured
       | _ => last ints EmptyString ++ String c EmptyString
       end, tail).
Proof.
  intros Hall Hc Htail. induction ints as [|ds more IH]; intros fuel captured Hfuel.
  - now apply group_star_stop.
  - simpl in Hall. apply andb_true_iff in Hall as [Hds Hmore].
    rewrite units_app_tail. simpl in Hfuel. rewrite length_append in Hfuel.
    simpl in Hfuel. destruct fuel as [|fuel]; [lia|].
    cbn [Re.group_star]. rewrite group_once_token by assumption.
    rewrite (IH Hmore) by lia. now destruct more.
Qed.

Lemma final_well_formed (ints : list string) :
  forallb is_int ints = true -> well_formed (final ints) = true.
Proof.
  intros H. destruct ints as [|ds more]; [reflexivity|].
  unfold final, well_formed.
  assert (Hin : In (last (ds :: more) EmptyString) (ds :: more)).
  { clear H. revert ds. induction more as [|x more IH]; intros ds; [now left|].
    right. apply (IH x). }
  rewrite forallb_forall in H. now apply H.
Qed.

Lemma component_final (ints : list string) (c : ascii) :
  component (final ints) c
  = match ints with
    | [] => EmptyString
    | _ => last ints EmptyString ++ String c EmptyString
    end.
Proof. now destruct ints. Qed.

(** The groups of a string of repeated components followed by text that no
    group can go on with. *)
Lemma findall_first_units (ws ds hs : list string) (rest : string) :
  forallb is_int ws = true -> forallb is_int ds = true -> forallb is_int hs = true ->
  Re.group_once "h" rest = None ->
  (hs = [] -> Re.group_once "d" rest = None) ->
  (hs = [] -> ds = [] -> Re.group_once "w" rest = None) ->
  Re.findall_first (units ws "w" ++ units ds "d" ++ units hs "h" ++ rest)
  = (component (final ws) "w", component (final ds) "d", component (final hs) "h").
Proof.
  intros Hws Hds Hhs Hh Hd Hw. unfold Re.findall_first.
  set (n := String.length _).
  assert (Hn : (String.length (units ws "w") + (String.length (units ds "d")
                + String.length (units hs "h")) <= n)%nat).
  { subst n. rewrite !length_append. lia. }
  rewrite !component_final.
  rewrite group_star_units; try assumption; try reflexivity; try lia.
  2:{ apply group_once_units_other; try assumption; try reflexivity; try discriminate.
      intros ->. apply group_once_units_other; try assumption; try reflexivity;
        try discriminate. intros ->. now apply Hw. }
  rewrite group_star_units; try assumption; try reflexivity; try lia.
  2:{ apply group_once_units_other; try assumption; try reflexivity; try discriminate. }
  rewrite group_star_units; try assumption; try reflexivity; try lia.
Qed.

Lemma estimation_units (ws ds hs : list string) (rest : string) :
  forallb is_int ws = true -> forallb is_int ds = true -> forallb is_int hs = true ->
  Re.group_once "h" rest = None ->
  (hs = [] -> Re.group_once "d" rest = None) ->
  (hs = [] -> ds = [] -> Re.group_once "w" rest = None) ->
  validate_estimation (PStr (units ws "w" ++ units ds "d" ++ units hs "h" ++ rest))
  = Ok (render (carried (value (final ws)) (value (final ds)) (value (final hs)))).
Proof.
  intros Hws Hds Hhs Hh Hd Hw.
  destruct (int_component (final ws) "w" (final_well_formed _ Hws)) as (uw & Iw & ->).
  destruct (int_component (final ds) "d" (final_well_formed _ Hds)) as (ud & Id & ->).
  destruct (int_component (final hs) "h" (final_well_formed _ Hhs)) as (uh & Ih & ->).
  now apply (estimation_of_groups _ _ _ _ _ _ _
               (findall_first_units ws ds hs rest Hws Hds Hhs Hh Hd Hw)).
Qed.

(** The carried triple is read off the total of working hours. *)
Lemma carried_total (w d h : Z) :
  carried w d h
  = (total_hours w d h / 40, (total_hours w d h / 8) mod 5, total_hours w d h mod 8).
Proof.
  unfold carried, total_hours.
  set (t := 40 * w + 8 * d + h).
  assert (H8 : t / 8 = d + h / 8 + w * 5).
  { subst t. replace (40 * w + 8 * d + h) with (h + (5 * w + d) * 8) by lia.
    rewrite Z.div_add by lia. lia. }
  assert (Hm : t mod 8 = h mod 8).
  { subst t. replace (40 * w + 8 * d + h) with (h + (5 * w + d) * 8) by lia.
    now rewrite Z.mod_add by lia. }
  assert (H40 : t / 40 = w + (d + h / 8) / 5).
  { change 40 with (8 * 5). rewrite <- Z.div_div by lia.
    rewrite H8, Z.div_add by lia. lia. }
  rewrite H40, H8, Hm, Z.mod_add by lia. reflexivity.
Qed.

Lemma carried_conserves (w d h : Z) :
  let '(w', d', h') := carried w d h in
  total_hours w' d' h' = total_hours w d h.
Proof.
  unfold carried, total_hours.
  pose proof (Z.div_mod h 8 ltac:(lia)).
  pose proof (Z.div_mod (d + h / 8) 5 ltac:(lia)).
  lia.
Qed.

Lemma value_nonneg (o : option string) : well_formed o = true -> 0 <= value o.
Proof.
  intros H. destruct (int_component o "w" H) as (u & _ & ->). apply of_uint_nonneg.
Qed.

Lemma str_not_empty (n : Z) (unit : string) : 0 < n -> str n ++ unit <> "".
Proof.
  intros Hn. destruct (str_positive n Hn) as [H _].
  destruct (is_int_cons _ H) as (a & r & -> & _). discriminate.
Qed.

Lemma append_empty (a b : string) : a ++ b = "" -> a = "" /\ b = "".
Proof. destruct a; simpl; [auto | discriminate]. Qed.

Lemma render_empty (w d h : Z) : render (w, d, h) = "" -> w <= 0 /\ d <= 0 /\ h <= 0.
Proof.
  unfold render. intros H.
  apply append_empty in H as [Hw H]. apply append_empty in H as [Hd Hh].
  repeat split.
  - destruct (Z.ltb_spec 0 w); [now apply str_not_empty in Hw | lia].
  - destruct (Z.ltb_spec 0 d); [now apply str_not_empty in Hd | lia].
  - destruct (Z.ltb_spec 0 h); [now apply str_not_empty in Hh | lia].
Qed.

(** X1. Repeated components and trailing text: when a string is made of any
    number of week components, then day components, then hour components, and
    of text that is empty or starts with a character other than a digit, only
    the last component of each unit is read (they are not added up) and the
    text is ignored. *)
Theorem estimation_reads_last_of_repeated_components
  (ws ds hs : list string) (rest : string) :
  forallb is_int ws = true -> forallb is_int ds = true -> forallb is_int hs = true ->
  no_digit_first rest = true ->
  validate_estimation (PStr (units ws "w" ++ units ds "d" ++ units hs "h" ++ rest))
  = Ok (render (carried (value (final ws)) (value (final ds)) (value (final hs)))).
Proof.
  intros Hws Hds Hhs Hrest.
  apply estimation_units; try assumption; intros; now apply group_once_no_digit.
Qed.

Lemma estimation_reads_last_of_repeated_components_witness :
  forallb is_int ["1"; "2"] = true /\ forallb is_int ["7"] = true
  /\ forallb is_int [] = true /\ no_digit_first " or so" = true
  /\ validate_estimation (PStr "1w2w7d or so") = Ok "3w2d".
Proof.
  split; [reflexivity|]. split; [reflexivity|]. split; [reflexivity|].
  split; [reflexivity|].
  exact (estimation_reads_last_of_repeated_components
           ["1"; "2"] ["7"] [] " or so" eq_refl eq_refl eq_refl eq_refl).
Defined.

(** X2. Units out of order: once an hour component has been read, a day or a
    week component that follows ends the reading, and so does a week component
    after a day component; it and all that follows are ignored. *)
Theorem estimation_stops_at_unit_out_of_order (a b rest : string) :
  is_int a = true -> is_int b = true ->
  validate_estimation (PStr (a ++ "h" ++ b ++ "d" ++ rest))
  = validate_estimation (PStr (a ++ "h"))
  /\ validate_estimation (PStr (a ++ "h" ++ b ++ "w" ++ rest))
     = validate_estimation (PStr (a ++ "h"))
  /\ validate_estimation (PStr (a ++ "d" ++ b ++ "w" ++ rest))
     = validate_estimation (PStr (a ++ "d")).
Proof.
  intros Ha Hb.
  assert (Hall : forallb is_int [a] = true) by (simpl; now rewrite Ha).
  assert (Hdig : all_digits b = true).
  { unfold is_int in Hb. now apply andb_true_iff in Hb. }
  assert (Hother : forall c x, is_digit x = false -> x <> c ->
                     Re.group_once c (b ++ String x rest) = None).
  { intros c x Hx Hxc. now apply group_once_other. }
  assert (Hone : forall c tail, a ++ String c tail = units [a] c ++ tail).
  { intros c tail. simpl. now rewrite append_assoc. }
  repeat split.
  - change (a ++ "h" ++ b ++ "d" ++ rest) with (a ++ String "h" (b ++ String "d" rest)).
    rewrite Hone.
    change (units [a] "h" ++ b ++ String "d" rest)
      with (units [] "w" ++ units [] "d" ++ units [a] "h" ++ (b ++ String "d" rest)).
    rewrite estimation_units; try reflexivity; try assumption; try discriminate.
    + symmetry. now apply (estimation_duration None None (Some a)).
    + now apply Hother.
  - change (a ++ "h" ++ b ++ "w" ++ rest) with (a ++ String "h" (b ++ String "w" rest)).
    rewrite Hone.
    change (units [a] "h" ++ b ++ String "w" rest)
      with (units [] "w" ++ units [] "d" ++ units [a] "h" ++ (b ++ String "w" rest)).
    rewrite estimation_units; try reflexivity; try assumption; try discriminate.
    + symmetry. now apply (estimation_duration None None (Some a)).
    + now apply Hother.
  - change (a ++ "d" ++ b ++ "w" ++ rest) with (a ++ String "d" (b ++ String "w" rest)).
    rewrite Hone.
    change (units [a] "d" ++ b ++ String "w" rest)
      with (units [] "w" ++ units [a] "d" ++ units [] "h" ++ (b ++ String "w" rest)).
    rewrite estimation_units; try reflexivity; try assumption; try discriminate.
    + symmetry. rewrite <- (append_nil_r (a ++ "d")).
      now apply (estimation_duration None (Some a) None).
    + now apply Hother.
    + intros _. now apply Hother.
Qed.

Lemma estimation_stops_at_unit_out_of_order_witness :
  is_int "3" = true /\ is_int "2" = true
  /\ validate_estimation (PStr "3h2d") = validate_estimation (PStr "3h").
Proof.
  split; [reflexivity|]. split; [reflexivity|].
  exact (proj1 (estimation_stops_at_unit_out_of_order "3" "2" "" eq_refl eq_refl)).
Defined.

Lemma render_in_grammar (w d h : Z) :
  0 <= w -> 0 <= d -> 0 <= h -> in_grammar (render (w, d, h)) = true.
Proof.
  intros Hw Hd Hh. rewrite render_duration. apply in_grammar_duration.
  exists (shown w), (shown d), (shown h).
  repeat split; now apply shown_spec.
Qed.

(** A rendering tells the numbers rendered. *)
Lemma render_injective (w d h w' d' h' : Z) :
  0 <= w -> 0 <= d -> 0 <= h -> 0 <= w' -> 0 <= d' -> 0 <= h' ->
  render (w, d, h) = render (w', d', h') -> (w, d, h) = (w', d', h').
Proof.
  intros Hw Hd Hh Hw' Hd' Hh' E.
  assert (F : Re.findall_first (render (w, d, h)) = Re.findall_first (render (w', d', h')))
    by now rewrite E.
  rewrite !render_duration in F.
  rewrite !findall_first_duration in F by now apply shown_spec.
  assert (V : forall o c, well_formed o = true ->
                decimal 0 (drop_last (component o c)) = value o).
  { intros [ds|] c _; simpl; [now rewrite drop_last_unit | reflexivity]. }
  injection F as Fw Fd Fh.
  apply (f_equal (fun x => decimal 0 (drop_last x))) in Fw, Fd, Fh.
  rewrite !V in Fw, Fd, Fh by now apply shown_spec.
  rewrite (proj2 (shown_spec w Hw)), (proj2 (shown_spec w' Hw')) in Fw.
  rewrite (proj2 (shown_spec d Hd)), (proj2 (shown_spec d' Hd')) in Fd.
  rewrite (proj2 (shown_spec h Hh)), (proj2 (shown_spec h' Hh')) in Fh.
  congruence.
Qed.

(** X3. Whatever string it is given, the normaliser returns a string of the
    grammar in which the days are fewer than 5 and the hours fewer than 8. *)
Theorem estimation_result_is_canonical (s : string) :
  exists w d h,
    validate_estimation (PStr s) = Ok (render (w, d, h))
    /\ 0 <= w /\ 0 <= d < 5 /\ 0 <= h < 8
    /\ in_grammar (render (w, d, h)) = true.
Proof.
  destruct (estimation_any s) as (w & d & h & Hw & Hd & Hh & E).
  pose proof (carried_bounds w d h Hw Hd Hh) as Hb.
  destruct (carried w d h) as [[w' d'] h']. destruct Hb as (Hw' & Hd' & Hh').
  exists w', d', h'. repeat split; try lia; try exact E.
  apply render_in_grammar; lia.
Qed.

(** X4. On a string of the grammar the normaliser keeps the amount of working
    time: the weeks, days and hours it renders add up to as many working hours
    (8 to a day, 40 to a week) as the components it read, with fewer than 5
    days and fewer than 8 hours. *)
Theorem estimation_conserves_working_hours (ow od oh : option string) :
  well_formed ow = true -> well_formed od = true -> well_formed oh = true ->
  exists w d h,
    validate_estimation (PStr (duration ow od oh)) = Ok (render (w, d, h))
    /\ total_hours w d h = total_hours (value ow) (value od) (value oh)
    /\ 0 <= w /\ 0 <= d < 5 /\ 0 <= h < 8.
Proof.
  intros Hw Hd Hh. rewrite estimation_duration by assumption.
  pose proof (carried_conserves (value ow) (value od) (value oh)) as Hc.
  pose proof (carried_bounds (value ow) (value od) (value oh)
                (value_nonneg _ Hw) (value_nonneg _ Hd) (value_nonneg _ Hh)) as Hb.
  destruct (carried (value ow) (value od) (value oh)) as [[w d] h].
  exists w, d, h. repeat split; try lia.
Qed.

Lemma estimation_conserves_working_hours_witness :
  well_formed (Some "1") = true /\ well_formed (Some "7") = true
  /\ well_formed (Some "19") = true
  /\ exists w d h,
       validate_estimation (PStr "1w7d19h") = Ok (render (w, d, h))
       /\ total_hours w d h = 115
       /\ 0 <= w /\ 0 <= d < 5 /\ 0 <= h < 8.
Proof.
  split; [reflexivity|]. split; [reflexivity|]. split; [reflexivity|].
  exact (estimation_conserves_working_hours (Some "1") (Some "7") (Some "19")
           eq_refl eq_refl eq_refl).
Defined.

(** X5. Two strings of the grammar are normalised to the same string exactly
    when they stand for the same number of working hours. *)
Theorem estimation_equal_iff_same_working_hours (ow od oh ow' od' oh' : option string) :
  well_formed ow = true -> well_formed od = true -> well_formed oh = true ->
  well_formed ow' = true -> well_formed od' = true -> well_formed oh' = true ->
  validate_estimation (PStr (duration ow od oh))
  = validate_estimation (PStr (duration ow' od' oh'))
  <-> total_hours (value ow) (value od) (value oh)
      = total_hours (value ow') (value od') (value oh').
Proof.
  intros Hw Hd Hh Hw' Hd' Hh'. rewrite !estimation_duration by assumption.
  split.
  - intros E0.
    assert (E : render (carried (value ow) (value od) (value oh))
                = render (carried (value ow') (value od') (value oh')))
      by congruence.
    clear E0.
    pose proof (carried_conserves (value ow) (value od) (value oh)) as C1.
    pose proof (carried_conserves (value ow') (value od') (value oh')) as C2.
    pose proof (carried_bounds (value ow) (value od) (value oh)
                  (value_nonneg _ Hw) (value_nonneg _ Hd) (value_nonneg _ Hh)) as B1.
    pose proof (carried_bounds (value ow') (value od') (value oh')
                  (value_nonneg _ Hw') (value_nonneg _ Hd') (value_nonneg _ Hh')) as B2.
    destruct (carried (value ow) (value od) (value oh)) as [[w1 d1] h1].
    destruct (carried (value ow') (value od') (value oh')) as [[w2 d2] h2].
    apply render_injective in E; try lia.
    congruence.
  - intros E. now rewrite !carried_total, E.
Qed.

Lemma estimation_equal_iff_same_working_hours_witness :
  validate_estimation (PStr "1w1h") = validate_estimation (PStr "4d9h").
Proof.
  apply (estimation_equal_iff_same_working_hours
           (Some "1") None (Some "1") None (Some "4") (Some "9"));
    reflexivity.
Defined.

(** X6. A rendering with fewer than 5 days and fewer than 8 hours is returned
    as it is. *)
Theorem estimation_keeps_canonical_strings (w d h : Z) :
  0 <= w -> 0 <= d < 5 -> 0 <= h < 8 ->
  validate_estimation (PStr (render (w, d, h))) = Ok (render (w, d, h)).
Proof.
  intros Hw Hd Hh. rewrite render_duration.
  destruct (shown_spec w Hw) as [W1 W2].
  destruct (shown_spec d) as [D1 D2]; [lia|].
  destruct (shown_spec h) as [H1 H2]; [lia|].
  rewrite estimation_duration by assumption.
  now rewrite W2, D2, H2, carried_fixed, render_duration by lia.
Qed.

Lemma estimation_keeps_canonical_strings_witness :
  validate_estimation (PStr (render (12, 4, 7))) = Ok (render (12, 4, 7)).
Proof. apply estimation_keeps_canonical_strings; lia. Defined.

(** X7. A string of the grammar is normalised to the empty string exactly
    when all its components are zero. *)
Theorem estimation_empty_iff_zero (ow od oh : option string) :
  well_formed ow = true -> well_formed od = true -> well_formed oh = true ->
  validate_estimation (PStr (duration ow od oh)) = Ok ""
  <-> value ow = 0 /\ value od = 0 /\ value oh = 0.
Proof.
  intros Hw Hd Hh. rewrite estimation_duration by assumption.
  pose proof (value_nonneg _ Hw). pose proof (value_nonneg _ Hd).
  pose proof (value_nonneg _ Hh).
  split.
  - intros E0.
    assert (E : render (carried (value ow) (value od) (value oh)) = "") by congruence.
    clear E0.
    pose proof (carried_conserves (value ow) (value od) (value oh)) as C.
    pose proof (carried_bounds (value ow) (value od) (value oh)
                  ltac:(lia) ltac:(lia) ltac:(lia)) as B.
    destruct (carried (value ow) (value od) (value oh)) as [[w d] h].
    apply render_empty in E. unfold total_hours in C. lia.
  - intros (-> & -> & ->). reflexivity.
Qed.

Lemma estimation_empty_iff_zero_witness :
  validate_estimation (PStr "00w0d") = Ok "".
Proof.
  apply (estimation_empty_iff_zero (Some "00") (Some "0") None); try reflexivity.
  repeat split.
Defined.

(** * Further properties of the name check *)

Import Saving.

(** X8. The three changes the check is written for.  Creating a definition
    fails exactly when the model has a row with the project and the name given;
    renaming one (to a name that is not empty) fails exactly when another row of
    its project has the new name; moving one to another project fails exactly
    when another row of that project has its name. *)
Theorem name_check_on_create_rename_move (db : database) (kind : entity_kind) :
  (forall n p,
      _validate_integrity_between_project_and_name db kind None
        {| attrs_id := None; attrs_name := Some n; attrs_project := Some p |}
      = Raise (ValidationError AlreadyExists)
      <-> exists r, In r (db kind) /\ ca_project r = p /\ ca_name r = n)
  /\ (forall o n, n <> "" ->
         (_validate_integrity_between_project_and_name db kind (Some o)
            {| attrs_id := None; attrs_name := Some n; attrs_project := None |}
          = Raise (ValidationError AlreadyExists)
          <-> exists r, In r (db kind) /\ ca_project r = ca_project o
                        /\ ca_name r = n /\ ca_id r <> ca_id o))
  /\ (forall o p,
         _validate_integrity_between_project_and_name db kind (Some o)
           {| attrs_id := None; attrs_name := None; attrs_project := Some p |}
         = Raise (ValidationError AlreadyExists)
         <-> exists r, In r (db kind) /\ ca_project r = p
                       /\ ca_name r = ca_name o /\ ca_id r <> ca_id o).
Proof.
  split; [|split].
  - intros n p.
    destruct (integrity_check_spec db kind None
                {| attrs_id := None; attrs_name := Some n; attrs_project := Some p |}
                None (Some n) (Some p) eq_refl) as [-> _].
    split.
    + intros (r & Hr & [= Hp] & [= Hn] & _). eauto.
    + intros (r & Hr & Hp & Hn). exists r. subst. repeat split; auto. discriminate.
  - intros o n Hne.
    assert (E : resolve (Some o)
                  {| attrs_id := None; attrs_name := Some n; attrs_project := None |}
                = (Some (ca_id o), Some n, Some (ca_project o))).
    { unfold resolve, or_str. simpl. apply String.eqb_neq in Hne. now rewrite Hne. }
    destruct (integrity_check_spec db kind (Some o) _ _ _ _ E) as [-> _].
    split.
    + intros (r & Hr & [= Hp] & [= Hn] & Hid). exists r. repeat split; auto. congruence.
    + intros (r & Hr & Hp & Hn & Hid). exists r. repeat split; auto; congruence.
  - intros o p.
    destruct (integrity_check_spec db kind (Some o)
                {| attrs_id := None; attrs_name := None; attrs_project := Some p |}
                (Some (ca_id o)) (Some (ca_name o)) (Some p) eq_refl) as [-> _].
    split.
    + intros (r & Hr & [= Hp] & [= Hn] & Hid). exists r. repeat split; auto. congruence.
    + intros (r & Hr & Hp & Hn & Hid). exists r. repeat split; auto; congruence.
Qed.

Lemma name_check_on_create_rename_move_witness :
  "browser" <> ""
  /\ _validate_integrity_between_project_and_name
       (fun _ => [Samples.severity;
                  {| ca_id := 5; ca_project := 1; ca_name := "browser";
                     ca_type := "text" |}])
       Issue (Some Samples.severity)
       {| attrs_id := None; attrs_name := Some "browser"; attrs_project := None |}
     = Raise (ValidationError AlreadyExists).
Proof.
  split; [discriminate|].
  apply (proj1 (proj2 (name_check_on_create_rename_move _ Issue))); [discriminate|].
  eexists. split; [right; left; reflexivity|]. repeat split. discriminate.
Defined.

(** X9. A creation that gives no name, or no project, always passes the
    check, whatever the rows of the model. *)
Theorem name_check_passes_without_name_or_project (db : database) (kind : entity_kind)
  (attrs : BaseCustomAttributeValidator.attrs_t) :
  attrs_name attrs = None \/ attrs_project attrs = None ->
  _validate_integrity_between_project_and_name db kind None attrs = Ok attrs.
Proof.
  intros H.
  destruct (integrity_check_spec db kind None attrs
              (attrs_id attrs) (attrs_name attrs) (attrs_project attrs) eq_refl)
    as [_ ->].
  intros (r & _ & Hp & Hn & _). destruct H as [H|H]; congruence.
Qed.

Lemma name_check_passes_without_name_or_project_witness :
  _validate_integrity_between_project_and_name Samples.issues_db Issue None
    {| attrs_id := None; attrs_name := Some "severity"; attrs_project := None |}
  = Ok {| attrs_id := None; attrs_name := Some "severity"; attrs_project := None |}.
Proof.
  apply name_check_passes_without_name_or_project. right. reflexivity.
Defined.

Lemma unique_names_intro (table : list CustomAttribute) :
  (forall r r', In r table -> In r' table ->
                ca_project r = ca_project r' -> ca_name r = ca_name r' ->
                ca_id r = ca_id r') ->
  unique_names table = true.
Proof.
  induction table as [|x rest IH]; intros H; [reflexivity|].
  simpl. apply andb_true_iff. split.
  - apply forallb_forall. intros r' Hr'. unfold same_project_and_name.
    destruct (Z.eqb_spec (ca_project x) (ca_project r')) as [Hp|]; [|reflexivity].
    destruct (String.eqb_spec (ca_name x) (ca_name r')) as [Hn|]; [|reflexivity].
    simpl. apply Z.eqb_eq. apply H; simpl; auto.
  - apply IH. intros r r' Hr Hr'. apply H; simpl; auto.
Qed.

(** X10. The check protects the uniqueness of names: when no two rows of the
    model share a project and a name, and a creation passes the check, the
    rows with the new definition added, whatever its id and type, still share
    no project and name. *)
Theorem name_check_keeps_names_unique_on_create (db : database) (kind : entity_kind)
  (n : string) (p i : Z) (t : string) :
  unique_names (db kind) = true ->
  _validate_integrity_between_project_and_name db kind None
    {| attrs_id := None; attrs_name := Some n; attrs_project := Some p |}
  = Ok {| attrs_id := None; attrs_name := Some n; attrs_project := Some p |} ->
  unique_names
    (created (db kind) {| ca_id := i; ca_project := p; ca_name := n; ca_type := t |})
  = true.
Proof.
  intros Huniq Hok.
  apply (proj2 (integrity_check_spec db kind None
                  {| attrs_id := None; attrs_name := Some n; attrs_project := Some p |}
                  None (Some n) (Some p) eq_refl)) in Hok.
  assert (Hfree : forall r, In r (db kind) -> ca_project r = p -> ca_name r = n -> False).
  { intros r Hr Hp Hn. apply Hok. exists r. subst. repeat split; auto. discriminate. }
  apply unique_names_intro. unfold created. intros r r' Hr Hr' Hp Hn.
  apply in_app_or in Hr, Hr'.
  destruct Hr as [Hr|[<-|[]]], Hr' as [Hr'|[<-|[]]]; simpl in *.
  - now apply (unique_names_spec (db kind)).
  - exfalso. now apply (Hfree r).
  - exfalso. apply (Hfree r'); auto.
  - reflexivity.
Qed.

Lemma name_check_keeps_names_unique_on_create_witness :
  unique_names (Samples.issues_db Issue) = true
  /\ unique_names
       (created (Samples.issues_db Issue)
          {| ca_id := 9; ca_project := 1; ca_name := "browser"; ca_type := "text" |})
     = true.
Proof.
  split; [reflexivity|].
  apply (name_check_keeps_names_unique_on_create Samples.issues_db Issue);
    reflexivity.
Defined.

(** X11. The same for an update that holds no id and no empty name: when no
    two rows share a project and a name and a change of the name, of the
    project or of both passes the check for the existing record, the rows with
    that record replaced by the record with the change applied still share no
    project and name. *)
Theorem name_check_keeps_names_unique_on_update (db : database) (kind : entity_kind)
  (o : CustomAttribute) (attrs : BaseCustomAttributeValidator.attrs_t) :
  unique_names (db kind) = true ->
  attrs_id attrs = None ->
  attrs_name attrs <> Some "" ->
  _validate_integrity_between_project_and_name db kind (Some o) attrs = Ok attrs ->
  unique_names (updated (db kind) (changed o attrs)) = true.
Proof.
  intros Huniq Hid Hname Hok.
  assert (Hres : resolve (Some o) attrs
                 = (Some (ca_id o), Some (ca_name (changed o attrs)),
                    Some (ca_project (changed o attrs)))).
  { unfold resolve, changed, or_int, or_str, or_obj. rewrite Hid. cbn.
    destruct (attrs_name attrs) as [s|], (attrs_project attrs) as [q|];
      try reflexivity;
      destruct (String.eqb_spec s "") as [->|]; congruence. }
  apply (proj2 (integrity_check_spec db kind (Some o) attrs _ _ _ Hres)) in Hok.
  set (row := changed o attrs) in *.
  assert (Hfree : forall r, In r (db kind) -> ca_project r = ca_project row ->
                    ca_name r = ca_name row -> ca_id r = ca_id o).
  { intros r Hr Hp Hn. destruct (Z.eq_dec (ca_id r) (ca_id o)) as [|Hne]; [assumption|].
    exfalso. apply Hok. exists r. repeat split; congruence. }
  assert (Hrow : ca_id row = ca_id o) by reflexivity.
  apply unique_names_intro. unfold updated. intros r r' Hr Hr' Hp Hn.
  apply in_map_iff in Hr as (x & <- & Hx). apply in_map_iff in Hr' as (x' & <- & Hx').
  rewrite Hrow in *.
  destruct (Z.eqb_spec (ca_id x) (ca_id o)) as [Ex|Nx],
           (Z.eqb_spec (ca_id x') (ca_id o)) as [Ex'|Nx'].
  - reflexivity.
  - rewrite Hrow. symmetry. now apply Hfree.
  - rewrite Hrow. now apply Hfree.
  - now apply (unique_names_spec (db kind)).
Qed.

Lemma name_check_keeps_names_unique_on_update_witness :
  unique_names (Samples.issues_db Issue) = true
  /\ attrs_name {| attrs_id := None; attrs_name := None; attrs_project := Some 2 |}
     <> Some ""
  /\ unique_names
       (updated (Samples.issues_db Issue)
          (changed Samples.severity
             {| attrs_id := None; attrs_name := None; attrs_project := Some 2 |}))
     = true.
Proof.
  split; [reflexivity|]. split; [discriminate|].
  apply (name_check_keeps_names_unique_on_update Samples.issues_db Issue
           Samples.severity
           {| attrs_id := None; attrs_name := None; attrs_project := Some 2 |});
    try reflexivity.
  discriminate.
Defined.

(** The empty name is left out for a reason: the check then runs on the name
    of the existing record, and the record renamed to the empty name can share
    it with another row. *)
Lemma empty_name_escapes_the_check :
  _validate_integrity_between_project_and_name
    (fun _ => [Samples.severity;
               {| ca_id := 5; ca_project := 1; ca_name := ""; ca_type := "text" |}])
    Issue (Some Samples.severity)
    {| attrs_id := None; attrs_name := Some ""; attrs_project := None |}
  = Ok {| attrs_id := None; attrs_name := Some ""; attrs_project := None |}
  /\ unique_names
       (updated [Samples.severity;
                 {| ca_id := 5; ca_project := 1; ca_name := ""; ca_type := "text" |}]
          (changed Samples.severity
             {| attrs_id := None; attrs_name := Some ""; attrs_project := None |}))
     = false.
Proof. split; reflexivity. Qed.

(** * Further properties of the values payload *)

Import Entries.
#[local] Open Scope list_scope.

Lemma distinct_NoDup (keys : list string) : distinct keys = true -> NoDup keys.
Proof.
  induction keys as [|k more IH]; simpl; intros H; [constructor|].
  apply andb_true_iff in H as [Hk Hmore]. constructor; [|now apply IH].
  intros Hin. apply negb_true_iff in Hk. apply not_true_iff_false in Hk. apply Hk.
  apply existsb_exists. exists k. split; [exact Hin | apply String.eqb_refl].
Qed.

Lemma assoc_get_fresh (done more : list (string * pyval)) (k : string) (v : pyval) :
  ~ In k (map fst done) -> assoc_get (done ++ (k, v) :: more) k = Some v.
Proof.
  induction done as [|[k' v'] done IH]; simpl; intros H.
  - now rewrite String.eqb_refl.
  - destruct (String.eqb_spec k' k) as [->|]; [tauto | apply IH; tauto].
Qed.

Lemma assoc_set_fresh (done more : list (string * pyval)) (k : string) (v w : pyval) :
  ~ In k (map fst done) ->
  assoc_set (done ++ (k, v) :: more) k w = done ++ (k, w) :: more.
Proof.
  induction done as [|[k' v'] done IH]; simpl; intros H.
  - now rewrite String.eqb_refl.
  - destruct (String.eqb_spec k' k) as [->|]; [tauto | rewrite IH; tauto].
Qed.

Lemma nth_error_middle {A : Type} (done more : list A) (x : A) :
  nth_error (done ++ x :: more) (List.length done) = Some x.
Proof. induction done as [|y done IH]; simpl; auto. Qed.

Lemma keys_middle (done more : list (string * pyval)) (k : string) (v : pyval) :
  NoDup (map fst (done ++ (k, v) :: more)) -> ~ In k (map fst done).
Proof.
  rewrite map_app. simpl. intros H Hin.
  apply NoDup_remove_2 in H. apply H. apply in_or_app. now left.
Qed.

(** The loop from the entry after [done] on is the entry-wise normalisation
    of the entries left. *)
Lemma estimation_loop_items (ids : list Z) (todo done : list (string * pyval)) :
  NoDup (map fst (done ++ todo)) ->
  match normalize_items ids todo with
  | Ok todo' =>
      estimation_loop ids (List.length todo) (List.length done) (PDict (done ++ todo))
      = (PDict (done ++ todo'), Ok tt)
  | Raise e =>
      snd (estimation_loop ids (List.length todo) (List.length done)
             (PDict (done ++ todo))) = Raise e
  end.
Proof.
  revert done. induction todo as [|[k v] more IH]; intros done Hkeys.
  - reflexivity.
  - pose proof (keys_middle done more k v Hkeys) as Hfresh.
    cbn [normalize_items List.length estimation_loop iter_nth].
    unfold normalize_item. cbn [fst snd].
    rewrite nth_error_middle. cbn [option_map fst].
    destruct (int (PStr k)) as [z|e]; [|cbn [bind]; reflexivity]. cbn [bind].
    assert (Hstep : forall w,
               NoDup (map fst ((done ++ [(k, w)]) ++ more))
               /\ done ++ (k, w) :: more = (done ++ [(k, w)]) ++ more
               /\ S (List.length done) = List.length (done ++ [(k, w)])).
    { intros w. rewrite <- app_assoc. simpl. split; [|split; [reflexivity|]].
      - rewrite map_app in Hkeys |- *. exact Hkeys.
      - rewrite length_app. simpl. lia. }
    destruct (mem z ids).
    + cbn [getitem]. rewrite assoc_get_fresh by assumption. cbn [bind].
      destruct (validate_estimation v) as [e|e]; [|cbn [bind]; reflexivity].
      cbn [bind setitem].
      rewrite assoc_set_fresh by assumption.
      destruct (Hstep (PStr e)) as (Hk' & -> & ->).
      specialize (IH (done ++ [(k, PStr e)]) Hk').
      destruct (normalize_items ids more) as [more'|e']; cbn [bind].
      * rewrite IH. now rewrite <- app_assoc.
      * exact IH.
    + destruct (Hstep v) as (Hk' & -> & ->).
      specialize (IH (done ++ [(k, v)]) Hk').
      destruct (normalize_items ids more) as [more'|e']; cbn [bind].
      * rewrite IH. now rewrite <- app_assoc.
      * exact IH.
Qed.

Lemma normalize_items_keys (ids : list Z) (d d' : list (string * pyval)) :
  normalize_items ids d = Ok d' -> map fst d' = map fst d.
Proof.
  revert d'. induction d as [|[k v] more IH]; simpl; intros d'.
  - now intros [= <-].
  - unfold normalize_item. simpl.
    destruct (match int_of_str k with Some z => Ok z | None => Raise ValueError end)
      as [z|]; [|discriminate]. cbn [bind].
    destruct (mem z ids).
    + destruct (validate_estimation v) as [e|]; [|discriminate]. cbn [bind].
      destruct (normalize_items ids more) as [more'|]; [|discriminate].
      intros [= <-]. simpl. now rewrite (IH more').
    + cbn [bind]. destruct (normalize_items ids more) as [more'|]; [|discriminate].
      intros [= <-]. simpl. now rewrite (IH more').
Qed.

(** X12. On a dict the in-place loop is the entry-wise normalisation, from the
    first entry to the last: when every entry goes through, the dict is left
    with the keys in their places, the values of the estimation attributes of
    user stories in normal form and all other values as they were; otherwise
    the exception is the one of the first entry that fails. *)
Theorem estimation_loop_is_entrywise (ids : list Z) (d : list (string * pyval)) :
  distinct (map fst d) = true ->
  match normalize_items ids d with
  | Ok d' => normalize_estimations ids (PDict d) = (PDict d', Ok tt)
  | Raise e => snd (normalize_estimations ids (PDict d)) = Raise e
  end.
Proof.
  intros H. apply distinct_NoDup in H.
  exact (estimation_loop_items ids d [] H).
Qed.

Lemma estimation_loop_is_entrywise_witness :
  distinct (map fst [("1", PStr "13h"); ("2", PStr "13h")]) = true
  /\ normalize_estimations [1] (PDict [("1", PStr "13h"); ("2", PStr "13h")])
     = (PDict [("1", PStr "1d5h"); ("2", PStr "13h")], Ok tt).
Proof.
  split; [reflexivity|].
  exact (estimation_loop_is_entrywise [1] [("1", PStr "13h"); ("2", PStr "13h")]
           eq_refl).
Defined.

Lemma row_of_id_or_none (table : list CustomAttribute) (project : option Z) (z : Z) :
  (exists r, In r table /\ ca_id r = z /\ Some (ca_project r) = project)
  \/ (forall r, In r table -> ca_id r = z -> Some (ca_project r) <> project).
Proof.
  induction table as [|x rest [IH|IH]].
  - right. intros r [].
  - left. destruct IH as (r & Hr & H). exists r. split; [now right | exact H].
  - destruct (Z.eq_dec (ca_id x) z) as [Hid|Hid].
    + destruct (eqb_opt_Z (Some (ca_project x)) project) eqn:E.
      * left. exists x. apply eqb_opt_Z_eq in E. split; [now left | auto].
      * right. intros r [<-|Hr] Hz; [|now apply IH].
        intros Hp. apply eqb_opt_Z_eq in Hp. congruence.
    + right. intros r [<-|Hr] Hz; [contradiction | now apply IH].
Qed.

Lemma selected_ids_incl (project : option Z) (ids : list Z) (table : list CustomAttribute) :
  incl (map ca_id (filter (in_project project ids) table)) ids.
Proof.
  intros x Hx. apply in_map_iff in Hx as (r & <- & Hr).
  apply filter_In in Hr as [_ Hsel]. unfold in_project in Hsel.
  apply andb_true_iff in Hsel as [_ Hm]. now apply mem_In.
Qed.

(** The count of the referential check against the number of keys. *)
Lemma count_equal_iff (table : list CustomAttribute) (project : option Z) (ids : list Z) :
  unique_ids table = true ->
  (List.length (filter (in_project project ids) table) = List.length ids
   <-> NoDup ids
       /\ forall z, In z ids ->
            exists r, In r table /\ ca_id r = z /\ Some (ca_project r) = project).
Proof.
  intros Huniq.
  pose proof (selected_ids_NoDup (in_project project ids) table Huniq) as Hnd.
  pose proof (selected_ids_incl project ids table) as Hincl.
  rewrite <- (length_map ca_id). split.
  - intros Hlen. split.
    + eapply NoDup_incl_NoDup; [exact Hnd | lia | exact Hincl].
    + intros z Hz. destruct (row_of_id_or_none table project z) as [H|H]; [exact H|].
      pose proof (missing_id_count table project ids z Huniq Hz H) as Hlt.
      rewrite <- (length_map ca_id) in Hlt. lia.
  - intros [Hids Hrows]. apply Nat.le_antisymm.
    + now apply NoDup_incl_length.
    + apply NoDup_incl_length; [exact Hids|].
      intros z Hz. destruct (Hrows z Hz) as (r & Hr & Hid & Hp).
      apply in_map_iff. exists r. split; [exact Hid|].
      apply filter_In. split; [exact Hr|]. unfold in_project.
      apply andb_true_iff. split; [now apply eqb_opt_Z_eq|].
      apply mem_In. now rewrite Hid.
Qed.

(** X13. With primary keys in the model and keys that read as integers, the
    referential check passes exactly when no two keys read as the same integer
    and every key is the id of a row of the model that belongs to the effective
    project. *)
Theorem referential_check_passes_iff (db : database) (kind : entity_kind)
  (self_object : option CustomAttributesValues)
  (attrs : BaseCustomAttributesValuesValidator.attrs_t)
  (d : list (string * pyval)) (ids : list Z) :
  unique_ids (db kind) = true ->
  prep_ids (map fst d) = Ok ids ->
  snd (check_keys db kind self_object attrs d) = Ok tt
  <-> NoDup ids
      /\ forall z, In z ids ->
           exists r, In r (db kind) /\ ca_id r = z
                     /\ Some (ca_project r) = effective_project self_object attrs.
Proof.
  intros Huniq E. rewrite (check_keys_unfold _ _ _ _ _ _ E). cbn [snd].
  rewrite <- (count_equal_iff (db kind) _ ids Huniq).
  rewrite <- (prep_ids_length _ _ E).
  destruct (Nat.eqb_spec
              (List.length (filter (in_project (effective_project self_object attrs) ids)
                              (db kind)))
              (List.length ids)) as [Heq|Hne]; split; congruence.
Qed.

Lemma referential_check_passes_iff_witness :
  unique_ids (Samples.issues_db Issue) = true
  /\ prep_ids (map fst [("3", PStr "high")]) = Ok [3]
  /\ snd (check_keys Samples.issues_db Issue None
            {| attrs_attributes_values := None;
               attrs_container := Some {| project_id := 1 |} |}
            [("3", PStr "high")]) = Ok tt.
Proof.
  split; [reflexivity|]. split; [reflexivity|].
  apply (proj2 (referential_check_passes_iff Samples.issues_db Issue None
                  {| attrs_attributes_values := None;
                     attrs_container := Some {| project_id := 1 |} |}
                  [("3", PStr "high")] [3] eq_refl eq_refl)).
  split.
  - repeat constructor. simpl. tauto.
  - intros z [<-|[]]. exists Samples.severity. repeat split. now left.
Defined.

(** An accepted change: the loop went through and the checks passed on the
    value it left. *)
Lemma validate_success (db : database) (kind : entity_kind)
  (self_object : option CustomAttributesValues)
  (attrs attrs' : BaseCustomAttributesValuesValidator.attrs_t) :
  snd (validate_attributes_values db kind self_object attrs) = Ok attrs' ->
  exists v v',
    attrs_attributes_values attrs = Some v
    /\ normalize_estimations (estimate_field_ids db) v = (v', Ok tt)
    /\ attrs' = {| attrs_attributes_values := Some v';
                   attrs_container := attrs_container attrs |}
    /\ snd (check_values db kind self_object attrs' v') = Ok tt.
Proof.
  unfold validate_attributes_values.
  destruct (attrs_attributes_values attrs) as [v|]; [|discriminate].
  destruct (normalize_estimations (estimate_field_ids db) v) as [v' [[]|e]] eqn:E;
    [|discriminate].
  destruct (check_values _ _ _ _ v') as [log [[]|e]] eqn:C; [|discriminate].
  cbn [snd bind]. intros [= <-]. exists v, v'. rewrite C. auto.
Qed.

Lemma check_values_success (db : database) (kind : entity_kind)
  (self_object : option CustomAttributesValues)
  (attrs : BaseCustomAttributesValuesValidator.attrs_t) (v : pyval) :
  snd (check_values db kind self_object attrs v) = Ok tt ->
  exists d, checked_values self_object v = PDict d
            /\ snd (check_keys db kind self_object attrs d) = Ok tt.
Proof.
  unfold check_values. fold (checked_values self_object v).
  destruct (checked_values self_object v); try discriminate. eauto.
Qed.

Lemma check_keys_success (db : database) (kind : entity_kind)
  (self_object : option CustomAttributesValues)
  (attrs : BaseCustomAttributesValuesValidator.attrs_t) (d : list (string * pyval)) :
  snd (check_keys db kind self_object attrs d) = Ok tt ->
  exists ids,
    prep_ids (map fst d) = Ok ids
    /\ List.length (filter (in_project (effective_project self_object attrs) ids)
                      (db kind))
       = List.length ids.
Proof.
  destruct (prep_ids (map fst d)) as [ids|e] eqn:E.
  - rewrite (check_keys_unfold _ _ _ _ _ _ E). cbn [snd].
    rewrite <- (prep_ids_length _ _ E).
    destruct (Nat.eqb_spec
                (List.length (filter (in_project (effective_project self_object attrs) ids)
                                (db kind)))
                (List.length ids)); [eauto | discriminate].
  - unfold check_keys. rewrite E. discriminate.
Qed.

Lemma prep_ids_In (keys : list string) (ids : list Z) (k : string) :
  prep_ids keys = Ok ids -> In k keys ->
  exists z, int_of_str k = Some z /\ In z ids.
Proof.
  revert ids. induction keys as [|k' keys IH]; simpl; intros ids E Hk; [tauto|].
  destruct (int_of_str k') as [z'|] eqn:Ek; simpl in E; [|discriminate].
  destruct (prep_ids keys) as [zs|]; simpl in E; [|discriminate].
  injection E as <-. destruct Hk as [<-|Hk].
  - exists z'. split; [exact Ek | now left].
  - destruct (IH zs eq_refl Hk) as (z & Hz & Hin). exists z. split; [exact Hz | now right].
Qed.

(** X14. What an accepted change guarantees: when the model has primary keys
    and [validate_attributes_values] returns, the container entry of [attrs] is
    untouched, the value checked is a dict, and each of its keys reads as an
    integer that is the id of a row of the validator's model in the effective
    project. *)
Theorem accepted_keys_name_attributes_of_project (db : database) (kind : entity_kind)
  (self_object : option CustomAttributesValues)
  (attrs attrs' : BaseCustomAttributesValuesValidator.attrs_t) :
  unique_ids (db kind) = true ->
  snd (validate_attributes_values db kind self_object attrs) = Ok attrs' ->
  attrs_container attrs' = attrs_container attrs
  /\ exists v' d,
       attrs_attributes_values attrs' = Some v'
       /\ checked_values self_object v' = PDict d
       /\ forall k, In k (map fst d) ->
            exists z r, int_of_str k = Some z /\ In r (db kind) /\ ca_id r = z
                        /\ Some (ca_project r) = effective_project self_object attrs.
Proof.
  intros Huniq H.
  destruct (validate_success _ _ _ _ _ H) as (v & v' & Hv & Hloop & -> & Hcheck).
  split; [reflexivity|].
  destruct (check_values_success _ _ _ _ _ Hcheck) as (d & Hd & Hkeys).
  destruct (check_keys_success _ _ _ _ _ Hkeys) as (ids & Hids & Hcount).
  exists v', d. split; [reflexivity|]. split; [exact Hd|].
  intros k Hk. destruct (prep_ids_In _ _ k Hids Hk) as (z & Hz & Hin).
  apply (count_equal_iff (db kind) _ ids Huniq) in Hcount as [_ Hrows].
  destruct (Hrows z Hin) as (r & Hr & Hid & Hp).
  exists z, r. repeat split; auto.
Qed.

Lemma accepted_keys_name_attributes_of_project_witness :
  unique_ids (Samples.stories_db UserStory) = true
  /\ snd (validate_attributes_values Samples.stories_db UserStory None
            {| attrs_attributes_values := Some (PDict [("1", PStr "13h")]);
               attrs_container := Some {| project_id := 1 |} |})
     = Ok {| attrs_attributes_values := Some (PDict [("1", PStr "1d5h")]);
             attrs_container := Some {| project_id := 1 |} |}
  /\ exists z r, int_of_str "1" = Some z /\ In r (Samples.stories_db UserStory)
                 /\ ca_id r = z /\ Some (ca_project r) = Some 1.
Proof.
  split; [reflexivity|]. split; [reflexivity|].
  destruct (accepted_keys_name_attributes_of_project Samples.stories_db UserStory None
              {| attrs_attributes_values := Some (PDict [("1", PStr "13h")]);
                 attrs_container := Some {| project_id := 1 |} |}
              {| attrs_attributes_values := Some (PDict [("1", PStr "1d5h")]);
                 attrs_container := Some {| project_id := 1 |} |}
              eq_refl eq_refl) as (_ & v' & d & Hv & Hd & Hkeys).
  injection Hv as <-. injection Hd as <-.
  apply Hkeys. now left.
Defined.

Lemma in_project_none (ids : list Z) (table : list CustomAttribute) :
  filter (in_project None ids) table = [].
Proof. induction table as [|r rest IH]; [reflexivity | exact IH]. Qed.

(** X15. Without a container in [attrs] and without an existing payload there
    is no project to look the keys up in: a dict is accepted exactly when it is
    empty. *)
Theorem only_empty_mapping_accepted_without_project (db : database) (kind : entity_kind)
  (d : list (string * pyval)) :
  (exists attrs',
      snd (validate_attributes_values db kind None
             {| attrs_attributes_values := Some (PDict d); attrs_container := None |})
      = Ok attrs')
  <-> d = [].
Proof.
  split.
  - intros [attrs' H].
    destruct (validate_success _ _ _ _ _ H) as (v & v' & Hv & Hloop & -> & Hcheck).
    injection Hv as <-.
    destruct (estimation_loop_keys (estimate_field_ids db) (len (PDict d)) O d)
      as (d' & Hfst & Hkeys).
    change (estimation_loop _ _ _ _)
      with (normalize_estimations (estimate_field_ids db) (PDict d)) in Hfst.
    rewrite Hloop in Hfst. simpl in Hfst. subst v'.
    destruct (check_values_success _ _ _ _ _ Hcheck) as (d0 & Hd0 & Hk).
    injection Hd0 as <-.
    destruct (check_keys_success _ _ _ _ _ Hk) as (ids & Hids & Hcount).
    change (effective_project None _) with (@None Z) in Hcount.
    rewrite in_project_none in Hcount. apply prep_ids_length in Hids.
    rewrite length_map in Hids.
    assert (Hlen : List.length d = O).
    { rewrite <- (length_map fst d), <- Hkeys, length_map. simpl in Hcount. lia. }
    now destruct d.
  - intros ->.
    exists {| attrs_attributes_values := Some (PDict []); attrs_container := None |}.
    unfold validate_attributes_values, check_values, check_keys, _custom_attribute_model.
    cbn. now rewrite in_project_none.
Qed.

Lemma normalize_item_again (ids : list Z) (kv kv' : string * pyval) :
  normalize_item ids kv = Ok kv' -> normalize_item ids kv' = Ok kv'.
Proof.
  destruct kv as [k v]. unfold normalize_item. cbn [fst snd].
  destruct (int (PStr k)) as [z|] eqn:Ek; cbn [bind]; [|discriminate].
  destruct (mem z ids) eqn:Em.
  - destruct (validate_estimation v) as [e|] eqn:Ev; cbn [bind]; [|discriminate].
    intros [= <-]. cbn [fst snd]. rewrite Ek. cbn [bind]. rewrite Em.
    destruct v; try discriminate Ev.
    now rewrite (estimation_idempotent _ _ Ev).
  - intros [= <-]. cbn [fst snd]. rewrite Ek. cbn [bind]. now rewrite Em.
Qed.

Lemma normalize_items_again (ids : list Z) (d d' : list (string * pyval)) :
  normalize_items ids d = Ok d' -> normalize_items ids d' = Ok d'.
Proof.
  revert d'. induction d as [|kv more IH]; cbn [normalize_items]; intros d'.
  - now intros [= <-].
  - destruct (normalize_item ids kv) as [kv'|] eqn:Ekv; cbn [bind]; [|discriminate].
    destruct (normalize_items ids more) as [more'|]; cbn [bind]; [|discriminate].
    intros [= <-]. cbn [normalize_items].
    now rewrite (normalize_item_again _ _ _ Ekv), (IH more' eq_refl).
Qed.

(** X16. Validating an accepted change again changes nothing: when a dict
    with distinct keys is accepted, the [attrs] returned are accepted as they
    are, with the same queries. *)
Theorem accepted_change_is_accepted_again (db : database) (kind : entity_kind)
  (self_object : option CustomAttributesValues) (d : list (string * pyval))
  (c : option Container) (attrs' : BaseCustomAttributesValuesValidator.attrs_t)
  (log : list query) :
  distinct (map fst d) = true ->
  validate_attributes_values db kind self_object
    {| attrs_attributes_values := Some (PDict d); attrs_container := c |}
  = (log, Ok attrs') ->
  validate_attributes_values db kind self_object attrs' = (log, Ok attrs').
Proof.
  intros Hd H.
  assert (Hs : snd (validate_attributes_values db kind self_object
                      {| attrs_attributes_values := Some (PDict d);
                         attrs_container := c |}) = Ok attrs') by now rewrite H.
  destruct (validate_success _ _ _ _ _ Hs) as (v & v' & Hv & Hloop & Hattrs & _).
  injection Hv as <-. cbn [attrs_container] in Hattrs.
  pose proof (estimation_loop_items (estimate_field_ids db) d []
                (distinct_NoDup _ Hd)) as Hitems.
  change (estimation_loop _ _ _ _)
    with (normalize_estimations (estimate_field_ids db) (PDict d)) in Hitems.
  destruct (normalize_items (estimate_field_ids db) d) as [d'|e] eqn:Ed.
  - rewrite Hloop in Hitems. injection Hitems as ->.
    assert (Hd' : distinct (map fst d') = true)
      by now rewrite (normalize_items_keys _ _ _ Ed).
    pose proof (estimation_loop_items (estimate_field_ids db) d' []
                  (distinct_NoDup _ Hd')) as Hagain.
    change (estimation_loop _ _ _ _)
      with (normalize_estimations (estimate_field_ids db) (PDict d')) in Hagain.
    rewrite (normalize_items_again _ _ _ Ed) in Hagain.
    rewrite (validate_after_loop _ _ _ _ _ _ Hloop) in H.
    subst attrs'. rewrite (validate_after_loop _ _ _ _ _ _ Hagain). exact H.
  - rewrite Hloop in Hitems. discriminate Hitems.
Qed.

Lemma accepted_change_is_accepted_again_witness :
  distinct (map fst [("1", PStr "13h")]) = true
  /\ validate_attributes_values Samples.stories_db UserStory None
       {| attrs_attributes_values := Some (PDict [("1", PStr "1d5h")]);
          attrs_container := Some {| project_id := 1 |} |}
     = ([QAll UserStory; QCount UserStory (Some 1) ["1"]],
        Ok {| attrs_attributes_values := Some (PDict [("1", PStr "1d5h")]);
              attrs_container := Some {| project_id := 1 |} |}).
Proof.
  split; [reflexivity|].
  apply (accepted_change_is_accepted_again Samples.stories_db UserStory None
           [("1", PStr "13h")] (Some {| project_id := 1 |}));
    reflexivity.
Defined.

Lemma setitem_type (c key x c' : pyval) :
  setitem c key x = Ok c' -> type_of c' = type_of c.
Proof.
  destruct c; simpl; try discriminate.
  - destruct (as_index key); [|discriminate].
    destruct (list_index (List.length l) z); [|discriminate]. now intros [= <-].
  - destruct key; try discriminate. now intros [= <-].
Qed.

(** The loop leaves a container of the same type and the same length. *)
Lemma estimation_loop_type (ids : list Z) (steps i : nat) (c : pyval) :
  type_of (fst (estimation_loop ids steps i c)) = type_of c
  /\ len (fst (estimation_loop ids steps i c)) = len c.
Proof.
  revert i c. induction steps as [|steps IH]; intros i c; [split; reflexivity|].
  cbn [estimation_loop].
  destruct (iter_nth c i) as [key|]; [|split; reflexivity].
  destruct (int key) as [k|]; [|split; reflexivity].
  destruct (mem k ids); [|apply IH].
  destruct (getitem c key) as [x|] eqn:Hget; [|split; reflexivity]. cbn [bind].
  destruct (validate_estimation x) as [e|]; [|split; reflexivity]. cbn [bind].
  destruct (setitem c key (PStr e)) as [c'|] eqn:Hset; [|split; reflexivity].
  destruct (IH (S i) c') as [Ht Hl].
  rewrite Ht, Hl, (setitem_type _ _ _ _ Hset), (setitem_len c key (PStr e) c'); eauto.
Qed.

Lemma truthy_by_length (c c' : pyval) :
  type_of c = type_of c' -> len c = len c' -> (3 <= type_of c)%nat ->
  truthy c = truthy c'.
Proof.
  destruct c, c'; simpl; try discriminate; try lia; intros _ Hlen _.
  - now destruct s, s0.
  - now destruct l, l0.
  - now destruct d, d0.
Qed.

(** X17. A value that is not a dict is never accepted when it is the value
    checked, that is when there is no existing payload or the value is true:
    whatever the loop does with it, the validation ends on an exception. *)
Theorem non_dict_value_never_accepted (db : database) (kind : entity_kind)
  (self_object : option CustomAttributesValues) (v : pyval) (c : option Container)
  (attrs' : BaseCustomAttributesValuesValidator.attrs_t) :
  is_dict v = false ->
  self_object = None \/ truthy v = true ->
  snd (validate_attributes_values db kind self_object
         {| attrs_attributes_values := Some v; attrs_container := c |})
  <> Ok attrs'.
Proof.
  intros Hv Hsel H.
  destruct (validate_success _ _ _ _ _ H) as (v0 & v' & Hv0 & Hloop & _ & Hcheck).
  injection Hv0 as <-.
  destruct (check_values_success _ _ _ _ _ Hcheck) as (d & Hd & _).
  assert (Hiter : (3 <= type_of v)%nat /\ type_of v' = type_of v /\ len v' = len v).
  { unfold normalize_estimations in Hloop.
    destruct v; try discriminate Hloop; simpl; (split; [lia|]);
      pose proof (estimation_loop_type (estimate_field_ids db)) as T;
      match type of Hloop with
      | estimation_loop ?ids ?n ?i ?x = _ =>
          specialize (T n i x); rewrite Hloop in T; exact T
      end. }
  destruct Hiter as (H3 & Ht & Hl).
  assert (Hsame : checked_values self_object v' = v').
  { unfold checked_values. destruct self_object as [o|]; [|reflexivity].
    destruct Hsel as [Hsel|Hsel]; [discriminate Hsel|].
    rewrite <- (truthy_by_length v v') by (try lia; congruence).
    now rewrite Hsel. }
  rewrite Hsame in Hd. subst v'. destruct v; simpl in *; discriminate.
Qed.

Lemma non_dict_value_never_accepted_witness :
  is_dict (PList [PInt 7]) = false
  /\ (@None CustomAttributesValues = None \/ truthy (PList [PInt 7]) = true)
  /\ snd (validate_attributes_values Samples.stories_db UserStory None
            {| attrs_attributes_values := Some (PList [PInt 7]);
               attrs_container := None |})
     <> Ok {| attrs_attributes_values := Some (PList [PInt 7]);
              attrs_container := None |}.
Proof.
  split; [reflexivity|]. split; [now left|].
  apply non_dict_value_never_accepted; [reflexivity | now left].
Defined.

(** X18. What the validators of one entity kind read: the name check depends
    on the rows of its own model only, and the validation of the values on the
    rows of its own model and on those of the user-story model, from which the
    estimation ids are taken.  Rows of the other models never change an
    outcome. *)
Theorem validators_read_their_own_model (db db' : database) (kind : entity_kind) :
  db kind = db' kind ->
  (forall self_object attrs,
      _validate_integrity_between_project_and_name db kind self_object attrs
      = _validate_integrity_between_project_and_name db' kind self_object attrs)
  /\ (db UserStory = db' UserStory ->
      forall self_object attrs,
        validate_attributes_values db kind self_object attrs
        = validate_attributes_values db' kind self_object attrs).
Proof.
  intros Hkind. split.
  - intros self_object attrs.
    unfold _validate_integrity_between_project_and_name, Meta_model. now rewrite Hkind.
  - intros Hus self_object attrs.
    unfold validate_attributes_values, check_values, check_keys,
      _custom_attribute_model, estimate_field_ids.
    now rewrite Hkind, Hus.
Qed.

Lemma validators_read_their_own_model_witness :
  validate_attributes_values Samples.issues_db Epic None
    {| attrs_attributes_values := Some (PDict [("3", PStr "high")]);
       attrs_container := Some {| project_id := 1 |} |}
  = validate_attributes_values (fun _ => []) Epic None
      {| attrs_attributes_values := Some (PDict [("3", PStr "high")]);
         attrs_container := Some {| project_id := 1 |} |}.
Proof.
  apply (proj2 (validators_read_their_own_model Samples.issues_db (fun _ => []) Epic
                  eq_refl));
    reflexivity.
Defined.

(** X19. In an update the empty list and the empty string are taken for a
    missing mapping: they are false, so the checks run on the mapping stored on
    the existing payload, and when they pass the value is returned in [attrs]
    as it was given, although it is not a dict. *)
Theorem empty_list_or_string_checks_stored_mapping (db : database) (kind : entity_kind)
  (o : CustomAttributesValues) (c : option Container) (v : pyval) :
  v = PList [] \/ v = PStr "" ->
  let attrs := {| attrs_attributes_values := Some v; attrs_container := c |} in
  validate_attributes_values db kind (Some o) attrs
  = match attributes_values o with
    | PDict stored =>
        (QAll UserStory :: fst (check_keys db kind (Some o) attrs stored),
         _ <- snd (check_keys db kind (Some o) attrs stored) ;; Ok attrs)
    | _ => ([QAll UserStory], Raise (ValidationError InvalidContent))
    end.
Proof.
  intros [-> | ->] attrs; unfold attrs.
  - rewrite (validate_after_loop db kind (Some o) (PList []) (PList []) c eq_refl).
    unfold check_values. cbn [truthy]. destruct (attributes_values o); reflexivity.
  - rewrite (validate_after_loop db kind (Some o) (PStr "") (PStr "") c eq_refl).
    unfold check_values. cbn [truthy String.eqb negb].
    destruct (attributes_values o); reflexivity.
Qed.

Lemma empty_list_or_string_checks_stored_mapping_witness :
  validate_attributes_values Samples.issues_db Issue
    (Some {| attributes_values := PDict [("3", PStr "high")];
             container := {| project_id := 1 |} |})
    {| attrs_attributes_values := Some (PList []); attrs_container := None |}
  = ([QAll UserStory; QCount Issue (Some 1) ["3"]],
     Ok {| attrs_attributes_values := Some (PList []); attrs_container := None |}).
Proof.
  exact (empty_list_or_string_checks_stored_mapping Samples.issues_db Issue
           {| attributes_values := PDict [("3", PStr "high")];
              container := {| project_id := 1 |} |}
           None (PList []) (or_introl eq_refl)).
Defined.
